(** * Quote overlay renderer: layout and compositing of [drawQuoteOnCanvas]

    A shallow embedding of the rendering function of [src/app/page.tsx]
    (latest revision, lines 1774-1996): [normalizeWord] and
    [drawQuoteOnCanvas], together with the parts of the JavaScript string
    library and of the 2D canvas interface they call.

    Modelling conventions.
    - A JavaScript string is the list of its UTF-16 code units ([N]).
    - A JavaScript number is an exact rational ([Q]); binary64 rounding is
      not modelled, except in [Binary64], which evaluates the centre-crop
      fallback on double-precision numbers.
    - [String.prototype.toUpperCase], [ctx.measureText] and the parser of
      CSS colours belong to the platform, not to the repository: they are
      parameters of the development.
    - The canvas is an explicit state (context attributes and the list of
      drawing operations performed so far) threaded through a state and
      exception monad. *)

From Stdlib Require Import Ascii String.
From Stdlib Require Import List NArith ZArith QArith Bool Lia Lqa Sorted.
From Stdlib Require PrimFloat DecimalPos DecimalZ.
Import ListNotations.

(** ** JavaScript strings *)

Module JS.

#[local] Open Scope N_scope.

Definition jsstring : Type := list N.

(** A string literal of the source, as code units. *)
Definition lit (s : string) : jsstring :=
  List.map N_of_ascii (list_ascii_of_string s).

Definition SPACE : N := 32.

Fixpoint eqb (a b : jsstring) : bool :=
  match a, b with
  | [], [] => true
  | x :: a', y :: b' => N.eqb x y && eqb a' b'
  | _, _ => false
  end.

(** [str !== ''] and the truthiness of a string. *)
Definition nonEmpty (s : jsstring) : bool :=
  match s with [] => false | _ :: _ => true end.

(** ECMAScript WhiteSpace and LineTerminator code points: the characters
    removed by [trim] and matched by the regular expression class [\s]. *)
Definition isWhiteSpace (c : N) : bool :=
  ((9 <=? c) && (c <=? 13)) || (c =? 32) || (c =? 160) || (c =? 5760)
  || ((8192 <=? c) && (c <=? 8202)) || (c =? 8232) || (c =? 8233)
  || (c =? 8239) || (c =? 8287) || (c =? 12288) || (c =? 65279).

(** The regular expression class [\w] (no unicode flag): [A-Za-z0-9_]. *)
Definition isWordChar (c : N) : bool :=
  ((48 <=? c) && (c <=? 57)) || ((65 <=? c) && (c <=? 90))
  || (c =? 95) || ((97 <=? c) && (c <=? 122)).

Fixpoint trimStart (s : jsstring) : jsstring :=
  match s with
  | [] => []
  | c :: s' => if isWhiteSpace c then trimStart s' else s
  end.

Definition trimEnd (s : jsstring) : jsstring := rev (trimStart (rev s)).

Definition trim (s : jsstring) : jsstring := trimEnd (trimStart s).

(** [s.split(sep)] for a one-character separator: the pieces between the
    occurrences of [sep], empty pieces included; never the empty array. *)
Fixpoint split (sep : N) (s : jsstring) : list jsstring :=
  match s with
  | [] => [[]]
  | c :: s' =>
      if N.eqb c sep then [] :: split sep s'
      else match split sep s' with
           | w :: ws => (c :: w) :: ws
           | [] => [[c]]
           end
  end.

(** [s.split(/\s+/)]: the pieces between maximal runs of white space. A
    string that starts (ends) with white space has an empty first (last)
    piece. [afterWs] tells that the previous character belonged to a
    separator run, which the current white space character then extends. *)
Fixpoint splitWsFrom (afterWs : bool) (s : jsstring) : list jsstring :=
  match s with
  | [] => [[]]
  | c :: s' =>
      if isWhiteSpace c then
        if afterWs then splitWsFrom true s' else [] :: splitWsFrom true s'
      else match splitWsFrom false s' with
           | w :: ws => (c :: w) :: ws
           | [] => [[c]]
           end
  end.

Definition splitWs (s : jsstring) : list jsstring := splitWsFrom false s.

(** [s.replace(/[^\w]/g, '')]. *)
Definition stripNonWord (s : jsstring) : jsstring := filter isWordChar s.

(** The Basic Latin part of the case mapping: [a-z] to [A-Z]. *)
Definition upcase (c : N) : N :=
  if (97 <=? c) && (c <=? 122) then c - 32 else c.

End JS.

Import JS.

(** ** White-space words of a line

    The renderer re-splits every committed line with
    [line.split(/\s+/).filter(word => word.trim().length > 0)]. *)

Definition lineWords (line : jsstring) : list jsstring :=
  filter (fun word => (0 <? List.length (trim word))%nat) (splitWs line).

Definition onlySpaceWs (s : jsstring) : Prop :=
  Forall (fun c => isWhiteSpace c = true -> c = SPACE) s.

Definition wsFree (s : jsstring) : Prop :=
  Forall (fun c => isWhiteSpace c = false) s.

(** ** Numbers *)

(** [x > y] and [x < y] on numbers. *)
Definition Qgtb (x y : Q) : bool := negb (Qle_bool x y).
Definition Qltb (x y : Q) : bool := negb (Qle_bool y x).

(** ** The 2D canvas *)

Module Canvas.

(** A CSS colour: the functional notation [rgba(r, g, b, a)] or any other
    colour string (['#ffffff'], the configured highlight colour). *)
Inductive Color : Type :=
| rgba (r g b : Z) (a : Q)
| css (s : string).

Record Gradient : Type := {
  x0 : Q; y0 : Q; x1 : Q; y1 : Q;
  colorStops : list (Q * Color)
}.

Inductive FillStyle : Type :=
| Solid (c : Color)
| Linear (g : Gradient).

Inductive TextAlign : Type := start | left | center.
Inductive TextBaseline : Type := alphabetic | middle.

(** The value of [ctx.font]: weight, size in pixels, family list. *)
Record Font : Type := {
  weight : string;
  sizePx : Q;
  family : string
}.

(** A decoded image: its dimensions and its source. *)
Record Image : Type := {
  imageWidth : Z;
  imageHeight : Z;
  src : string
}.

(** The drawing state of the context. *)
Record Context : Type := {
  font : Font;
  fillStyle : FillStyle;
  textAlign : TextAlign;
  textBaseline : TextBaseline
}.

(** What has been painted: each operation with the attributes that were
    current when it was issued. *)
Inductive Op : Type :=
| DrawImageCropped (img : Image) (sx sy sw sh dx dy dw dh : Q)
| DrawImage (img : Image) (dx dy dw dh : Q)
| FillRect (style : FillStyle) (x y w h : Q)
| FillText (text : jsstring) (x y : Q) (attrs : Context).

Record t : Type := {
  has2d : bool;            (* whether getContext('2d') yields a context *)
  width : Q;
  height : Q;
  ctx : Context;
  bitmap : list Op
}.

Definition defaultContext : Context :=
  {| font := {| weight := "normal"; sizePx := 10; family := "sans-serif" |};
     fillStyle := Solid (css "#000000");
     textAlign := start;
     textBaseline := alphabetic |}.

Inductive Exn : Type := IndexSizeError.

Inductive Outcome (A : Type) : Type :=
| Done (a : A) (c : t)
| Throw (e : Exn) (c : t).
Arguments Done {A} a c.
Arguments Throw {A} e c.

(** Computations on a canvas that may throw. *)
Definition M (A : Type) : Type := t -> Outcome A.

Definition ret {A} (a : A) : M A := fun c => Done a c.

Definition bind {A B} (m : M A) (k : A -> M B) : M B :=
  fun c => match m c with
           | Done a c' => k a c'
           | Throw e c' => Throw e c'
           end.

Definition throw {A} (e : Exn) : M A := fun c => Throw e c.

Definition canvasOf {A} (o : Outcome A) : t :=
  match o with Done _ c => c | Throw _ c => c end.

Definition completed {A} (o : Outcome A) : bool :=
  match o with Done _ _ => true | Throw _ _ => false end.

(** Assigning [canvas.width] or [canvas.height] resets the context to its
    default state and clears the bitmap. *)
Definition setWidth (w : Q) : M unit := fun c =>
  Done tt {| has2d := has2d c; width := w; height := height c;
             ctx := defaultContext; bitmap := [] |}.

Definition setHeight (h : Q) : M unit := fun c =>
  Done tt {| has2d := has2d c; width := width c; height := h;
             ctx := defaultContext; bitmap := [] |}.

Definition getWidth : M Q := fun c => Done (width c) c.
Definition getHeight : M Q := fun c => Done (height c) c.

Definition withCtx (f : Context -> Context) : M unit := fun c =>
  Done tt {| has2d := has2d c; width := width c; height := height c;
             ctx := f (ctx c); bitmap := bitmap c |}.

Definition setFont (f : Font) : M unit :=
  withCtx (fun k => {| font := f; fillStyle := fillStyle k;
                       textAlign := textAlign k; textBaseline := textBaseline k |}).

(** The hexadecimal notation of a CSS colour: [#] followed by 3, 4, 6 or 8
    hexadecimal digits. *)
Definition isHexDigit (a : ascii) : bool :=
  let n := N_of_ascii a in
  (((48 <=? n) && (n <=? 57)) || ((65 <=? n) && (n <=? 70))
   || ((97 <=? n) && (n <=? 102)))%N.

Definition hexColor (s : string) : bool :=
  match s with
  | String "#" digits =>
      forallb isHexDigit (list_ascii_of_string digits)
      && existsb (Nat.eqb (String.length digits)) [3; 4; 6; 8]%nat
  | _ => false
  end.

(** Whether a value assigned to [ctx.fillStyle] is taken: a gradient is, a
    string when it parses as a CSS colour. [cssColor] is the parser of the
    user agent for the notations other than the hexadecimal one (colour
    names, functional notations). *)
Definition parses (cssColor : string -> bool) (value : FillStyle) : bool :=
  match value with
  | Solid (css s) => hexColor s || cssColor s
  | _ => true
  end.

(** The fill style after [ctx.fillStyle = value]: a string that does not
    parse as a CSS colour is ignored. *)
Definition assigned (cssColor : string -> bool) (value old : FillStyle) : FillStyle :=
  if parses cssColor value then value else old.

Definition setFillStyle (cssColor : string -> bool) (value : FillStyle) : M unit :=
  withCtx (fun k => {| font := font k; fillStyle := assigned cssColor value (fillStyle k);
                       textAlign := textAlign k; textBaseline := textBaseline k |}).

Definition setTextAlign (a : TextAlign) : M unit :=
  withCtx (fun k => {| font := font k; fillStyle := fillStyle k;
                       textAlign := a; textBaseline := textBaseline k |}).

Definition setTextBaseline (b : TextBaseline) : M unit :=
  withCtx (fun k => {| font := font k; fillStyle := fillStyle k;
                       textAlign := textAlign k; textBaseline := b |}).

Definition getFont : M Font := fun c => Done (font (ctx c)) c.

Definition paint (op : Context -> Op) : M unit := fun c =>
  Done tt {| has2d := has2d c; width := width c; height := height c;
             ctx := ctx c; bitmap := bitmap c ++ [op (ctx c)] |}.

Definition drawImageCropped (img : Image) (sx sy sw sh dx dy dw dh : Q) : M unit :=
  paint (fun _ => DrawImageCropped img sx sy sw sh dx dy dw dh).

Definition drawImage (img : Image) (dx dy dw dh : Q) : M unit :=
  paint (fun _ => DrawImage img dx dy dw dh).

Definition fillRect (x y w h : Q) : M unit :=
  paint (fun k => FillRect (fillStyle k) x y w h).

Definition fillText (text : jsstring) (x y : Q) : M unit :=
  paint (fun k => FillText text x y k).

Definition createLinearGradient (a b c d : Q) : Gradient :=
  {| x0 := a; y0 := b; x1 := c; y1 := d; colorStops := [] |}.

(** [gradient.addColorStop(offset, color)] throws an IndexSizeError for an
    offset outside [0, 1]. *)
Definition addColorStop (g : Gradient) (offset : Q) (color : Color) : M Gradient :=
  if Qle_bool 0 offset && Qle_bool offset 1
  then ret {| x0 := x0 g; y0 := y0 g; x1 := x1 g; y1 := y1 g;
              colorStops := colorStops g ++ [(offset, color)] |}
  else throw IndexSizeError.

(** [list.forEach((x, index) => body)], from index [i]. *)
Fixpoint forEachFrom {A} (i : nat) (body : A -> nat -> M unit) (l : list A) : M unit :=
  match l with
  | [] => ret tt
  | x :: l' => bind (body x i) (fun _ => forEachFrom (S i) body l')
  end.

Definition forEach {A} (body : A -> nat -> M unit) (l : list A) : M unit :=
  forEachFrom 0 body l.

(** A [forEach] whose body updates one local variable of the enclosing
    function. *)
Fixpoint forEachVar {A V} (body : V -> A -> M V) (l : list A) (v : V) : M V :=
  match l with
  | [] => ret v
  | x :: l' => bind (body v x) (forEachVar body l')
  end.

End Canvas.

Notation "x <- m ;; k" := (Canvas.bind m (fun x => k))
  (at level 61, m at next level, right associativity).
Notation "m ;;; k" := (Canvas.bind m (fun _ => k))
  (at level 61, right associativity).

(** ** The page: data *)

Inductive TextPosition : Type := top | bottom.

Module CropData.
Record t : Type := { x : Q; y : Q; width : Q; height : Q }.
End CropData.

(** [interface GeneratedQuote]; an optional field is an [option]. *)
Module Quote.
Record t : Type := {
  id : string;
  text : jsstring;
  highlightedWord : jsstring;
  imageUrl : string;
  image : Canvas.Image;
  textPosition : TextPosition;
  fontSize : option Q;
  gradientStart : option Q;
  cropData : option CropData.t
}.
End Quote.

(** The component state that [drawQuoteOnCanvas] closes over. *)
Module Settings.
Record t : Type := {
  artistName : jsstring;
  highlightColor : string;
  selectedFont : string;
  fontSize : Q
}.
End Settings.

Module FontOption.
Record t : Type := { name : string; value : string; family : string; weights : string }.
End FontOption.

Definition dquote : string := String (ascii_of_nat 34) EmptyString.

Definition quoted (familyName rest : string) : string :=
  (dquote ++ familyName ++ dquote ++ rest)%string.

Definition FONT_OPTIONS : list FontOption.t :=
  let mk n fam w :=
    {| FontOption.name := n; FontOption.value := n;
       FontOption.family := fam; FontOption.weights := w |} in
  [ mk "Montserrat" (quoted "Montserrat" ", sans-serif") "400;700;900";
    mk "Playfair Display" (quoted "Playfair Display" ", serif") "400;700;900";
    mk "Oswald" (quoted "Oswald" ", sans-serif") "400;600;700";
    mk "Raleway" (quoted "Raleway" ", sans-serif") "400;600;700;800";
    mk "Bebas Neue" (quoted "Bebas Neue" ", sans-serif") "400";
    mk "Poppins" (quoted "Poppins" ", sans-serif") "400;600;700;800";
    mk "Lato" (quoted "Lato" ", sans-serif") "400;700;900";
    mk "Roboto" (quoted "Roboto" ", sans-serif") "400;700;900";
    mk "Inter" (quoted "Inter" ", sans-serif") "400;600;700;800";
    mk "Barlow" (quoted "Barlow" ", sans-serif") "400;600;700;900";
    mk "Arial" "Arial, sans-serif" EmptyString ]%string.

(** The rectangle handed to [ctx.drawImage] by the centre-crop fallback. *)
Record DrawRect : Type := {
  drawWidth : Q;
  drawHeight : Q;
  offsetX : Q;
  offsetY : Q
}.

Definition white : Canvas.Color := Canvas.css "#ffffff".

(** The literal of [openingQuote], as the source file spells it. *)
Definition openingQuote : jsstring := [8218; 196; 250]%N.

(** ** The page: [normalizeWord] and [drawQuoteOnCanvas] *)

Section Page.

(** [String.prototype.toUpperCase]. *)
Variable toUpperCase : jsstring -> jsstring.

(** [ctx.measureText(text).width] under a given [ctx.font]. *)
Variable textWidth : Canvas.Font -> jsstring -> Q.

(** Whether the canvas parses a string as a CSS colour, for the strings
    that are not in hexadecimal notation. *)
Variable cssColor : string -> bool.

(** The component state read by the renderer. *)
Variable settings : Settings.t.

Definition measureText (text : jsstring) : Canvas.M Q :=
  fun c => Canvas.Done (textWidth (Canvas.font (Canvas.ctx c)) text) c.

(** Lines 1775-1782. *)
Definition normalizeWord (word : jsstring) : jsstring :=
  if negb (nonEmpty word) then []
  else toUpperCase (stripNonWord (trim word)).

(** Lines 1808-1825: the aspect-ratio branch of the fallback. *)
Definition fitToCanvas (imgAspect canvasWidth canvasHeight : Q) : DrawRect :=
  let canvasAspect := canvasWidth / canvasHeight in
  if Qgtb imgAspect canvasAspect then
    let drawHeight := canvasHeight in
    let drawWidth := drawHeight * imgAspect in
    {| drawWidth := drawWidth; drawHeight := drawHeight;
       offsetX := (canvasWidth - drawWidth) / 2; offsetY := 0 |}
  else
    let drawWidth := canvasWidth in
    let drawHeight := drawWidth / imgAspect in
    {| drawWidth := drawWidth; drawHeight := drawHeight;
       offsetX := 0; offsetY := (canvasHeight - drawHeight) / 2 |}.

(** Lines 1828-1833: first "ensure minimum size" block. *)
Definition ensureWidth (imgAspect canvasWidth canvasHeight : Q) (r : DrawRect) : DrawRect :=
  if Qltb (drawWidth r) canvasWidth then
    let drawWidth := canvasWidth in
    let drawHeight := drawWidth / imgAspect in
    {| drawWidth := drawWidth; drawHeight := drawHeight;
       offsetX := 0; offsetY := (canvasHeight - drawHeight) / 2 |}
  else r.

(** Lines 1834-1839: second "ensure minimum size" block. *)
Definition ensureHeight (imgAspect canvasWidth canvasHeight : Q) (r : DrawRect) : DrawRect :=
  if Qltb (drawHeight r) canvasHeight then
    let drawHeight := canvasHeight in
    let drawWidth := drawHeight * imgAspect in
    {| drawWidth := drawWidth; drawHeight := drawHeight;
       offsetX := (canvasWidth - drawWidth) / 2; offsetY := 0 |}
  else r.

(** Lines 1806-1840: the fallback to centre crop. *)
Definition centerCrop (img : Canvas.Image) (canvasWidth canvasHeight : Q) : DrawRect :=
  let imgAspect := inject_Z (Canvas.imageWidth img) / inject_Z (Canvas.imageHeight img) in
  ensureHeight imgAspect canvasWidth canvasHeight
    (ensureWidth imgAspect canvasWidth canvasHeight
       (fitToCanvas imgAspect canvasWidth canvasHeight)).

(** Lines 1792-1842. *)
Definition drawBackground (quote : Quote.t) : Canvas.M unit :=
  canvasWidth <- Canvas.getWidth ;;
  canvasHeight <- Canvas.getHeight ;;
  match Quote.cropData quote with
  | Some cropData =>
      Canvas.drawImageCropped (Quote.image quote)
        (CropData.x cropData) (CropData.y cropData)
        (CropData.width cropData) (CropData.height cropData)
        0 0 canvasWidth canvasHeight
  | None =>
      let r := centerCrop (Quote.image quote) canvasWidth canvasHeight in
      Canvas.drawImage (Quote.image quote)
        (offsetX r) (offsetY r) (drawWidth r) (drawHeight r)
  end.

(** Line 1846. *)
Definition gradientStartPosition (quote : Quote.t) : Q :=
  match Quote.gradientStart quote with
  | Some g => g
  | None => 0.5
  end.

(** Lines 1848-1859. *)
Definition buildGradient (quote : Quote.t) (canvasHeight : Q) : Canvas.M Canvas.Gradient :=
  let gradient := Canvas.createLinearGradient 0 0 0 canvasHeight in
  match Quote.textPosition quote with
  | top =>
      g1 <- Canvas.addColorStop gradient 0 (Canvas.rgba 0 0 0 0.85) ;;
      g2 <- Canvas.addColorStop g1 (gradientStartPosition quote) (Canvas.rgba 0 0 0 0) ;;
      Canvas.addColorStop g2 1 (Canvas.rgba 0 0 0 0)
  | bottom =>
      g1 <- Canvas.addColorStop gradient 0 (Canvas.rgba 0 0 0 0) ;;
      g2 <- Canvas.addColorStop g1 (gradientStartPosition quote) (Canvas.rgba 0 0 0 0) ;;
      Canvas.addColorStop g2 1 (Canvas.rgba 0 0 0 0.85)
  end.

(** Lines 1844-1861. *)
Definition drawGradient (quote : Quote.t) : Canvas.M unit :=
  canvasWidth <- Canvas.getWidth ;;
  canvasHeight <- Canvas.getHeight ;;
  gradient <- buildGradient quote canvasHeight ;;
  Canvas.setFillStyle cssColor (Canvas.Linear gradient) ;;;
  Canvas.fillRect 0 0 canvasWidth canvasHeight.

(** Line 1864: [quote.fontSize || fontSize]. *)
Definition effectiveFontSize (quote : Quote.t) : Q :=
  match Quote.fontSize quote with
  | Some size => if Qeq_bool size 0 then Settings.fontSize settings else size
  | None => Settings.fontSize settings
  end.

Definition maxWidth : Q := 900.
Definition bottomPadding : Q := 200.
Definition topPadding : Q := 200.

(** Line 1869. *)
Definition lineHeight (quote : Quote.t) : Q := effectiveFontSize quote * 1.3.

(** Lines 1874-1875. *)
Definition fontFamily : string :=
  match find (fun f => String.eqb (FontOption.value f) (Settings.selectedFont settings))
             FONT_OPTIONS with
  | Some fontOption => FontOption.family fontOption
  | None => "Arial, sans-serif"%string
  end.

Definition bodyFont (quote : Quote.t) : Canvas.Font :=
  {| Canvas.weight := "bold"; Canvas.sizePx := effectiveFontSize quote;
     Canvas.family := fontFamily |}.

(** Lines 1885-1895: the body of [words.forEach], on the local variables
    [lines] and [currentLine]; [width] is [ctx.measureText(_).width]. *)
Definition wrapWord (width : jsstring -> Q) (st : list jsstring * jsstring)
    (word : jsstring) : list jsstring * jsstring :=
  let (lines, currentLine) := st in
  let testLine := currentLine ++ word ++ [SPACE] in
  if Qgtb (width testLine) maxWidth && nonEmpty currentLine
  then (lines ++ [trim currentLine], word ++ [SPACE])
  else (lines, testLine).

(** Lines 1896-1898. *)
Definition flushLine (st : list jsstring * jsstring) : list jsstring :=
  let (lines, currentLine) := st in
  if nonEmpty currentLine then lines ++ [trim currentLine] else lines.

(** Lines 1882-1898. *)
Definition wrapWords (width : jsstring -> Q) (words : list jsstring) : list jsstring :=
  flushLine (fold_left (wrapWord width) words ([], [])).

(** Lines 1867 and 1882-1898: the lines of a quote text. *)
Definition layoutLines (width : jsstring -> Q) (text : jsstring) : list jsstring :=
  wrapWords width (split SPACE (toUpperCase text)).

(** Lines 1901-1911. *)
Definition startY (quote : Quote.t) (lines : list jsstring) (canvasHeight : Q) : Q :=
  let totalTextHeight := inject_Z (Z.of_nat (List.length lines)) * lineHeight quote in
  match Quote.textPosition quote with
  | top => topPadding + (lineHeight quote / 2)
  | bottom => canvasHeight - bottomPadding - totalTextHeight
  end.

(** Lines 1913-1934. *)
Definition drawOpeningQuote (quote : Quote.t) (lines : list jsstring)
    (centerX startY : Q) : Canvas.M unit :=
  match lines with
  | firstLineText :: _ =>
      firstLineWidth <- measureText firstLineText ;;
      let firstLineX := centerX - (firstLineWidth / 2) in
      let firstLineY := startY in
      let quoteMarkSize := effectiveFontSize quote * 1.57 in
      Canvas.setFont {| Canvas.weight := "300"; Canvas.sizePx := quoteMarkSize;
                        Canvas.family := quoted "Times New Roman" ", Georgia, serif" |} ;;;
      Canvas.setFillStyle cssColor (Canvas.Solid white) ;;;
      Canvas.setTextAlign Canvas.left ;;;
      quoteWidth <- measureText openingQuote ;;
      let quoteGap := 16 in
      let quoteX := firstLineX - quoteGap - quoteWidth in
      let quoteY := firstLineY in
      Canvas.fillText openingQuote quoteX quoteY
  | [] => Canvas.ret tt
  end.

(** Lines 1941-1943. *)
Definition normalizedHighlightedWord (quote : Quote.t) : jsstring :=
  if nonEmpty (Quote.highlightedWord quote)
  then normalizeWord (trim (Quote.highlightedWord quote))
  else [].

(** Lines 1961-1971. *)
Definition shouldHighlight (quote : Quote.t) (lineWord : jsstring) : bool :=
  let normalizedLineWord := normalizeWord lineWord in
  nonEmpty (normalizedHighlightedWord quote)
  && (0 <? List.length (normalizedHighlightedWord quote))%nat
  && (0 <? List.length normalizedLineWord)%nat
  && JS.eqb normalizedLineWord (normalizedHighlightedWord quote).

(** Lines 1959-1985: the body of [lineWords.forEach], on the local variable
    [lineX]. The two [console.log] calls of the loop paint nothing and are
    left out. *)
Definition drawWord (quote : Quote.t) (y : Q) (lineX : Q) (lineWord : jsstring) : Canvas.M Q :=
  (if shouldHighlight quote lineWord
   then Canvas.setFillStyle cssColor
          (Canvas.Solid (Canvas.css (Settings.highlightColor settings)))
   else Canvas.setFillStyle cssColor (Canvas.Solid white)) ;;;
  wordWidth <- measureText lineWord ;;
  spaceWidth <- measureText [SPACE] ;;
  Canvas.setTextAlign Canvas.left ;;;
  Canvas.fillText lineWord lineX y ;;;
  Canvas.ret (lineX + (wordWidth + spaceWidth)).

(** Lines 1950-1986: the body of [lines.forEach]. *)
Definition drawLine (quote : Quote.t) (centerX startY : Q)
    (line : jsstring) (lineIndex : nat) : Canvas.M unit :=
  let y := startY + (inject_Z (Z.of_nat lineIndex) * lineHeight quote) in
  lineWidth <- measureText line ;;
  let lineX := centerX - (lineWidth / 2) in
  Canvas.forEachVar (drawWord quote y) (lineWords line) lineX ;;;
  Canvas.ret tt.

(** Lines 1988-1995. *)
Definition drawArtistName (quote : Quote.t) (centerX canvasHeight : Q) : Canvas.M unit :=
  Canvas.setFont {| Canvas.weight := "normal"; Canvas.sizePx := 36;
                    Canvas.family := "Arial, sans-serif" |} ;;;
  Canvas.setFillStyle cssColor (Canvas.Solid white) ;;;
  Canvas.setTextAlign Canvas.center ;;;
  let artistNameY :=
    match Quote.textPosition quote with
    | top => canvasHeight - 100
    | bottom => canvasHeight - 100
    end in
  Canvas.fillText (toUpperCase (Settings.artistName settings)) centerX artistNameY.

(** Lines 1863-1995: everything after the gradient overlay. *)
Definition drawText (quote : Quote.t) : Canvas.M unit :=
  canvasWidth <- Canvas.getWidth ;;
  canvasHeight <- Canvas.getHeight ;;
  let centerX := canvasWidth / 2 in
  Canvas.setFont (bodyFont quote) ;;;
  Canvas.setTextAlign Canvas.center ;;;
  Canvas.setTextBaseline Canvas.middle ;;;
  font <- Canvas.getFont ;;
  let lines := layoutLines (textWidth font) (Quote.text quote) in
  let startY := startY quote lines canvasHeight in
  drawOpeningQuote quote lines centerX startY ;;;
  Canvas.setFont (bodyFont quote) ;;;
  Canvas.setTextAlign Canvas.center ;;;
  Canvas.forEach (drawLine quote centerX startY) lines ;;;
  drawArtistName quote centerX canvasHeight.

(** Lines 1784-1996. *)
Definition drawQuoteOnCanvas (quote : Quote.t) : Canvas.M unit :=
  fun canvas =>
    if negb (Canvas.has2d canvas) then Canvas.Done tt canvas
    else
      (Canvas.setWidth 1080 ;;;
       Canvas.setHeight 1350 ;;;
       drawBackground quote ;;;
       drawGradient quote ;;;
       drawText quote) canvas.

End Page.

(** ** The display list of a render

    What [drawQuoteOnCanvas] leaves on the canvas, written as a function of
    the quote: the proofs below show that running the function produces
    exactly this list of operations. *)

Section Display.

Variable toUpperCase : jsstring -> jsstring.
Variable textWidth : Canvas.Font -> jsstring -> Q.
Variable cssColor : string -> bool.
Variable settings : Settings.t.

(** The canvas [c] with context [k] after painting [ops]. *)
Definition paintOn (c : Canvas.t) (k : Canvas.Context) (ops : list Canvas.Op) : Canvas.t :=
  {| Canvas.has2d := Canvas.has2d c; Canvas.width := Canvas.width c;
     Canvas.height := Canvas.height c; Canvas.ctx := k;
     Canvas.bitmap := Canvas.bitmap c ++ ops |}.

Definition validOffset (g : Q) : Prop := 0 <= g /\ g <= 1.

Definition validOffsetb (g : Q) : bool := Qle_bool 0 g && Qle_bool g 1.

Definition backgroundOp (quote : Quote.t) (canvasWidth canvasHeight : Q) : Canvas.Op :=
  match Quote.cropData quote with
  | Some cropData =>
      Canvas.DrawImageCropped (Quote.image quote)
        (CropData.x cropData) (CropData.y cropData)
        (CropData.width cropData) (CropData.height cropData)
        0 0 canvasWidth canvasHeight
  | None =>
      let r := centerCrop (Quote.image quote) canvasWidth canvasHeight in
      Canvas.DrawImage (Quote.image quote)
        (offsetX r) (offsetY r) (drawWidth r) (drawHeight r)
  end.

Definition gradientStops (quote : Quote.t) : list (Q * Canvas.Color) :=
  match Quote.textPosition quote with
  | top => [ (0, Canvas.rgba 0 0 0 0.85);
             (gradientStartPosition quote, Canvas.rgba 0 0 0 0);
             (1, Canvas.rgba 0 0 0 0) ]
  | bottom => [ (0, Canvas.rgba 0 0 0 0);
                (gradientStartPosition quote, Canvas.rgba 0 0 0 0);
                (1, Canvas.rgba 0 0 0 0.85) ]
  end.

Definition overlayGradient (quote : Quote.t) (canvasHeight : Q) : Canvas.Gradient :=
  {| Canvas.x0 := 0; Canvas.y0 := 0; Canvas.x1 := 0; Canvas.y1 := canvasHeight;
     Canvas.colorStops := gradientStops quote |}.

Definition overlayOp (quote : Quote.t) (canvasWidth canvasHeight : Q) : Canvas.Op :=
  Canvas.FillRect (Canvas.Linear (overlayGradient quote canvasHeight))
    0 0 canvasWidth canvasHeight.

(** The context after one word has been drawn from context [k]. *)
Definition wordContext (quote : Quote.t) (k : Canvas.Context) (lineWord : jsstring) : Canvas.Context :=
  {| Canvas.font := Canvas.font k;
     Canvas.fillStyle :=
       Canvas.assigned cssColor
         (if shouldHighlight toUpperCase quote lineWord
          then Canvas.Solid (Canvas.css (Settings.highlightColor settings))
          else Canvas.Solid white)
         (Canvas.fillStyle k);
     Canvas.textAlign := Canvas.left;
     Canvas.textBaseline := Canvas.textBaseline k |}.

Fixpoint wordOps (quote : Quote.t) (k : Canvas.Context) (y lineX : Q)
    (words : list jsstring) : list Canvas.Op :=
  match words with
  | [] => []
  | lineWord :: rest =>
      let k' := wordContext quote k lineWord in
      Canvas.FillText lineWord lineX y k'
      :: wordOps quote k' y
           (lineX + (textWidth (Canvas.font k) lineWord + textWidth (Canvas.font k) [SPACE]))
           rest
  end.

Definition wordsContext (quote : Quote.t) (k : Canvas.Context) (words : list jsstring) : Canvas.Context :=
  fold_left (wordContext quote) words k.

Definition lineY (quote : Quote.t) (startY : Q) (lineIndex : nat) : Q :=
  startY + (inject_Z (Z.of_nat lineIndex) * lineHeight settings quote).

Definition lineOps (quote : Quote.t) (k : Canvas.Context) (centerX startY : Q)
    (line : jsstring) (lineIndex : nat) : list Canvas.Op :=
  wordOps quote k (lineY quote startY lineIndex)
    (centerX - (textWidth (Canvas.font k) line / 2)) (lineWords line).

Fixpoint linesOps (quote : Quote.t) (k : Canvas.Context) (centerX startY : Q)
    (lineIndex : nat) (lines : list jsstring) : list Canvas.Op :=
  match lines with
  | [] => []
  | line :: rest =>
      lineOps quote k centerX startY line lineIndex
      ++ linesOps quote (wordsContext quote k (lineWords line)) centerX startY
           (S lineIndex) rest
  end.

Fixpoint linesContext (quote : Quote.t) (k : Canvas.Context) (lines : list jsstring) : Canvas.Context :=
  match lines with
  | [] => k
  | line :: rest => linesContext quote (wordsContext quote k (lineWords line)) rest
  end.

Definition quoteMarkFont (quote : Quote.t) : Canvas.Font :=
  {| Canvas.weight := "300"; Canvas.sizePx := effectiveFontSize settings quote * 1.57;
     Canvas.family := quoted "Times New Roman" ", Georgia, serif" |}.

Definition quoteMarkContext (quote : Quote.t) (k : Canvas.Context) : Canvas.Context :=
  {| Canvas.font := quoteMarkFont quote; Canvas.fillStyle := Canvas.Solid white;
     Canvas.textAlign := Canvas.left; Canvas.textBaseline := Canvas.textBaseline k |}.

Definition quoteMarkOps (quote : Quote.t) (k : Canvas.Context) (lines : list jsstring)
    (centerX startY : Q) : list Canvas.Op :=
  match lines with
  | firstLineText :: _ =>
      [ Canvas.FillText openingQuote
          (centerX - (textWidth (Canvas.font k) firstLineText / 2) - 16
           - textWidth (quoteMarkFont quote) openingQuote)
          startY (quoteMarkContext quote k) ]
  | [] => []
  end.

Definition afterQuoteMark (quote : Quote.t) (k : Canvas.Context) (lines : list jsstring) : Canvas.Context :=
  match lines with
  | _ :: _ => quoteMarkContext quote k
  | [] => k
  end.

Definition captionContext (k : Canvas.Context) : Canvas.Context :=
  {| Canvas.font := {| Canvas.weight := "normal"; Canvas.sizePx := 36;
                       Canvas.family := "Arial, sans-serif" |};
     Canvas.fillStyle := Canvas.Solid white;
     Canvas.textAlign := Canvas.center;
     Canvas.textBaseline := Canvas.textBaseline k |}.

Definition captionOp (centerX canvasHeight : Q) (k : Canvas.Context) : Canvas.Op :=
  Canvas.FillText (toUpperCase (Settings.artistName settings)) centerX
    (canvasHeight - 100) (captionContext k).

(** The context in which the wrapped lines are measured. *)
Definition layoutContext (quote : Quote.t) (canvasHeight : Q) : Canvas.Context :=
  {| Canvas.font := bodyFont settings quote;
     Canvas.fillStyle := Canvas.Linear (overlayGradient quote canvasHeight);
     Canvas.textAlign := Canvas.center;
     Canvas.textBaseline := Canvas.middle |}.

(** The lines of the quote, as the renderer wraps them. *)
Definition quoteLines (quote : Quote.t) : list jsstring :=
  layoutLines toUpperCase (textWidth (bodyFont settings quote)) (Quote.text quote).

(** The context in which the first word of the first line is drawn. *)
Definition bodyContext (quote : Quote.t) (canvasHeight : Q) : Canvas.Context :=
  {| Canvas.font := bodyFont settings quote;
     Canvas.fillStyle :=
       Canvas.fillStyle
         (afterQuoteMark quote (layoutContext quote canvasHeight) (quoteLines quote));
     Canvas.textAlign := Canvas.center;
     Canvas.textBaseline := Canvas.middle |}.

Definition textOps (quote : Quote.t) (canvasWidth canvasHeight : Q) : list Canvas.Op :=
  let lines := quoteLines quote in
  let centerX := canvasWidth / 2 in
  let startY := startY settings quote lines canvasHeight in
  quoteMarkOps quote (layoutContext quote canvasHeight) lines centerX startY
  ++ linesOps quote (bodyContext quote canvasHeight) centerX startY 0 lines
  ++ [captionOp centerX canvasHeight
        (linesContext quote (bodyContext quote canvasHeight) lines)].

Definition displayList (quote : Quote.t) : list Canvas.Op :=
  [backgroundOp quote 1080 1350; overlayOp quote 1080 1350] ++ textOps quote 1080 1350.

(** The canvas after a completed render. *)
Definition rendered (quote : Quote.t) : Canvas.t :=
  {| Canvas.has2d := true; Canvas.width := 1080; Canvas.height := 1350;
     Canvas.ctx := captionContext (layoutContext quote 1350);
     Canvas.bitmap := displayList quote |}.

(** The canvas when the gradient construction throws. *)
Definition interrupted (quote : Quote.t) : Canvas.t :=
  {| Canvas.has2d := true; Canvas.width := 1080; Canvas.height := 1350;
     Canvas.ctx := Canvas.defaultContext;
     Canvas.bitmap := [backgroundOp quote 1080 1350] |}.

(** The outcome of a render on a canvas with a 2D context, as a function of
    the request alone. *)
Definition outcomeOf (quote : Quote.t) : Canvas.Outcome unit :=
  if validOffsetb (gradientStartPosition quote)
  then Canvas.Done tt (rendered quote)
  else Canvas.Throw Canvas.IndexSizeError (interrupted quote).

End Display.

(** The text and the vertical position of a [fillText] operation. *)
Definition opText (op : Canvas.Op) : option jsstring :=
  match op with
  | Canvas.FillText text _ _ _ => Some text
  | _ => None
  end.


(** The fill style with which a [fillText] operation was painted. *)
Definition opFill (op : Canvas.Op) : option Canvas.FillStyle :=
  match op with
  | Canvas.FillText _ _ _ attrs => Some (Canvas.fillStyle attrs)
  | _ => None
  end.

(** ** The centre-crop fallback on binary64 numbers

    Lines 1808-1839 once more, on IEEE 754 double-precision numbers, to
    evaluate the fallback where rounding could matter: at and around the
    aspect ratio of the canvas. *)

Module Binary64.

Import PrimFloat.
#[local] Open Scope float_scope.

Record DrawRect : Type := {
  drawWidth : float;
  drawHeight : float;
  offsetX : float;
  offsetY : float
}.

Definition fitToCanvas (imgAspect canvasWidth canvasHeight : float) : DrawRect :=
  let canvasAspect := canvasWidth / canvasHeight in
  if ltb canvasAspect imgAspect then
    let drawHeight := canvasHeight in
    let drawWidth := drawHeight * imgAspect in
    {| drawWidth := drawWidth; drawHeight := drawHeight;
       offsetX := (canvasWidth - drawWidth) / 2; offsetY := 0 |}
  else
    let drawWidth := canvasWidth in
    let drawHeight := drawWidth / imgAspect in
    {| drawWidth := drawWidth; drawHeight := drawHeight;
       offsetX := 0; offsetY := (canvasHeight - drawHeight) / 2 |}.

Definition ensureWidth (imgAspect canvasWidth canvasHeight : float) (r : DrawRect) : DrawRect :=
  if ltb (drawWidth r) canvasWidth then
    let drawWidth := canvasWidth in
    let drawHeight := drawWidth / imgAspect in
    {| drawWidth := drawWidth; drawHeight := drawHeight;
       offsetX := 0; offsetY := (canvasHeight - drawHeight) / 2 |}
  else r.

Definition ensureHeight (imgAspect canvasWidth canvasHeight : float) (r : DrawRect) : DrawRect :=
  if ltb (drawHeight r) canvasHeight then
    let drawHeight := canvasHeight in
    let drawWidth := drawHeight * imgAspect in
    {| drawWidth := drawWidth; drawHeight := drawHeight;
       offsetX := (canvasWidth - drawWidth) / 2; offsetY := 0 |}
  else r.

Definition centerCrop (imageWidth imageHeight canvasWidth canvasHeight : float) : DrawRect :=
  let imgAspect := imageWidth / imageHeight in
  ensureHeight imgAspect canvasWidth canvasHeight
    (ensureWidth imgAspect canvasWidth canvasHeight
       (fitToCanvas imgAspect canvasWidth canvasHeight)).

(** The guards leave the branch result alone and the rectangle covers the
    canvas, for an image of the given size. *)
Definition guardsIdle (imageWidth imageHeight : float) : bool :=
  let imgAspect := imageWidth / imageHeight in
  let r := fitToCanvas imgAspect 1080 1350 in
  negb (ltb (drawWidth r) 1080) && negb (ltb (drawHeight r) 1350)
  && leb (offsetX r) 0 && leb (offsetY r) 0
  && eqb (drawWidth (centerCrop imageWidth imageHeight 1080 1350)) (drawWidth r)
  && eqb (drawHeight (centerCrop imageWidth imageHeight 1080 1350)) (drawHeight r).

(** Image sizes at the aspect ratio of the canvas, next to it and far
    from it. *)
Definition samples : list (float * float) :=
  [ (1080, 1350); (4, 5); (8, 10); (1, 1); (2000, 1000); (1000, 2000);
    (3, 4); (5, 6); (799, 1000); (801, 1000); (7999999, 10000000);
    (8000001, 10000000); (1, 100000); (100000, 1); (4032, 3024);
    (3024, 4032) ].

End Binary64.

(** ** The highlight matcher, in the words of the specification *)

(** [normalize(word)]: trim, strip every character that is not a letter,
    digit or underscore, uppercase the remainder. *)
Definition normalize (toUpperCase : jsstring -> jsstring) (word : jsstring) : jsstring :=
  toUpperCase (stripNonWord (trim word)).

(** [isHighlighted(renderedWord, highlightedWordSetting)]: both normalized
    forms are non-empty and equal. *)
Definition isHighlighted (toUpperCase : jsstring -> jsstring)
    (renderedWord highlightedWordSetting : jsstring) : Prop :=
  normalize toUpperCase renderedWord <> []
  /\ normalize toUpperCase highlightedWordSetting <> []
  /\ normalize toUpperCase renderedWord
     = normalize toUpperCase highlightedWordSetting.

(** What the development assumes of [toUpperCase] where it matters: on a
    string of word characters it maps [a-z] to [A-Z] and keeps the rest. *)
Definition basicLatinUpper (toUpperCase : jsstring -> jsstring) : Prop :=
  forall s, Forall (fun c => isWordChar c = true) s -> toUpperCase s = List.map upcase s.


(** ** The notions of the specification

    Definitions that follow the words of the specification, to compare the
    code with. *)




(** The white-space-run split that discards empty tokens (section 4.4):
    [current] is the token read so far. *)
Fixpoint tokensFrom (current : jsstring) (s : jsstring) : list jsstring :=
  match s with
  | [] => if nonEmpty current then [current] else []
  | c :: s' =>
      if isWhiteSpace c
      then (if nonEmpty current then [current] else []) ++ tokensFrom [] s'
      else tokensFrom (current ++ [c]) s'
  end.

Definition whitespaceTokens (s : jsstring) : list jsstring := tokensFrom [] s.

(** The crop rectangle of section 4.1, in source-image coordinates: the
    part of the image that is seen on a canvas of the given size when the
    image is drawn into the rectangle [r]. *)
Definition sourceCrop (img : Canvas.Image) (r : DrawRect) (canvasWidth canvasHeight : Q)
    : CropData.t :=
  let scaleX := drawWidth r / inject_Z (Canvas.imageWidth img) in
  let scaleY := drawHeight r / inject_Z (Canvas.imageHeight img) in
  {| CropData.x := (0 - offsetX r) / scaleX;
     CropData.y := (0 - offsetY r) / scaleY;
     CropData.width := canvasWidth / scaleX;
     CropData.height := canvasHeight / scaleY |}.

(** ** Sample inputs

    A monospaced measurement (every code unit is [px] wide), the Basic
    Latin case mapping, default settings and a blank canvas, used to
    evaluate the renderer on concrete requests. *)

Module Sample.

Definition toUpperCase (s : jsstring) : jsstring := List.map upcase s.

Definition monospace (px : Q) (_ : Canvas.Font) (s : jsstring) : Q :=
  inject_Z (Z.of_nat (List.length s)) * px.

(** A colour parser that knows, besides the hexadecimal notation, the
    names of three colours. *)
Definition cssColor (s : string) : bool :=
  (String.eqb s "red" || String.eqb s "green" || String.eqb s "blue")%string.

Definition settingsWith (highlightColor : string) : Settings.t :=
  {| Settings.artistName := lit "artist";
     Settings.highlightColor := highlightColor;
     Settings.selectedFont := "Oswald";
     Settings.fontSize := 70 |}.

Definition settings : Settings.t := settingsWith "#FF8C00".

Definition image (w h : Z) : Canvas.Image :=
  {| Canvas.imageWidth := w; Canvas.imageHeight := h; Canvas.src := "blob:photo" |}.

Definition quote (text highlightedWord : jsstring) (position : TextPosition) : Quote.t :=
  {| Quote.id := "1"; Quote.text := text; Quote.highlightedWord := highlightedWord;
     Quote.imageUrl := "blob:photo"; Quote.image := image 2000 1000;
     Quote.textPosition := position; Quote.fontSize := None;
     Quote.gradientStart := None; Quote.cropData := None |}.

(** The same request with a per-quote gradient start. *)
Definition quoteFrom (start : Q) (text : jsstring) (position : TextPosition) : Quote.t :=
  {| Quote.id := "1"; Quote.text := text; Quote.highlightedWord := [];
     Quote.imageUrl := "blob:photo"; Quote.image := image 2000 1000;
     Quote.textPosition := position; Quote.fontSize := None;
     Quote.gradientStart := Some start; Quote.cropData := None |}.

(** A canvas element as created: 300 by 150, nothing painted. *)
Definition blank : Canvas.t :=
  {| Canvas.has2d := true; Canvas.width := 300; Canvas.height := 150;
     Canvas.ctx := Canvas.defaultContext; Canvas.bitmap := [] |}.

(** A canvas that has been painted on with other attributes. *)
Definition used : Canvas.t :=
  {| Canvas.has2d := true; Canvas.width := 640; Canvas.height := 480;
     Canvas.ctx := {| Canvas.font := {| Canvas.weight := "bold"; Canvas.sizePx := 12;
                                        Canvas.family := "serif" |};
                      Canvas.fillStyle := Canvas.Solid (Canvas.css "#123456");
                      Canvas.textAlign := Canvas.left;
                      Canvas.textBaseline := Canvas.middle |};
     Canvas.bitmap := [Canvas.FillRect (Canvas.Solid (Canvas.css "#123456")) 0 0 10 10] |}.

Definition TAB : N := 9%N.
Definition LF : N := 10%N.

End Sample.

(** ** Auxiliary notions of the proofs *)

(** The buffer is empty or ends with the space appended after a word. *)
Definition endsWithSpace (s : jsstring) : Prop :=
  s = [] \/ exists p, s = p ++ [SPACE].

(** The words of the committed lines followed by those of the buffer. *)
Definition wordsSoFar (st : list jsstring * jsstring) : list jsstring :=
  flat_map lineWords (fst st) ++ lineWords (snd st).

(** ** The page: editing the quote inputs *)

(** [interface QuoteInput]; [imageUrl] is [string | null]. *)
Module QuoteInput.
Record t : Type := {
  id : string;
  text : jsstring;
  highlightedWord : jsstring;
  imageUrl : option string;
  textPosition : TextPosition;
  fontSize : option Q;
  gradientStart : option Q
}.
End QuoteInput.

(** A key of [QuoteInput] with a value of the type the interface gives it:
    the [field] and [value] arguments of [updateQuoteInput]. *)
Inductive FieldValue : Type :=
| SetId (value : string)
| SetText (value : jsstring)
| SetHighlightedWord (value : jsstring)
| SetImageUrl (value : string)
| SetTextPosition (value : TextPosition)
| SetFontSize (value : Q)
| SetGradientStart (value : Q).

(** [{ ...q, [field]: value }]. *)
Definition assign (q : QuoteInput.t) (fv : FieldValue) : QuoteInput.t :=
  {| QuoteInput.id := match fv with SetId v => v | _ => QuoteInput.id q end;
     QuoteInput.text := match fv with SetText v => v | _ => QuoteInput.text q end;
     QuoteInput.highlightedWord :=
       match fv with SetHighlightedWord v => v | _ => QuoteInput.highlightedWord q end;
     QuoteInput.imageUrl :=
       match fv with SetImageUrl v => Some v | _ => QuoteInput.imageUrl q end;
     QuoteInput.textPosition :=
       match fv with SetTextPosition v => v | _ => QuoteInput.textPosition q end;
     QuoteInput.fontSize :=
       match fv with SetFontSize v => Some v | _ => QuoteInput.fontSize q end;
     QuoteInput.gradientStart :=
       match fv with SetGradientStart v => Some v | _ => QuoteInput.gradientStart q end |}.

(** [{ ...q, fontSize: size }] and [{ ...q, gradientStart: start }]. *)
Definition withFontSize (q : QuoteInput.t) (size : option Q) : QuoteInput.t :=
  {| QuoteInput.id := QuoteInput.id q; QuoteInput.text := QuoteInput.text q;
     QuoteInput.highlightedWord := QuoteInput.highlightedWord q;
     QuoteInput.imageUrl := QuoteInput.imageUrl q;
     QuoteInput.textPosition := QuoteInput.textPosition q;
     QuoteInput.fontSize := size;
     QuoteInput.gradientStart := QuoteInput.gradientStart q |}.

Definition withGradientStart (q : QuoteInput.t) (start : option Q) : QuoteInput.t :=
  {| QuoteInput.id := QuoteInput.id q; QuoteInput.text := QuoteInput.text q;
     QuoteInput.highlightedWord := QuoteInput.highlightedWord q;
     QuoteInput.imageUrl := QuoteInput.imageUrl q;
     QuoteInput.textPosition := QuoteInput.textPosition q;
     QuoteInput.fontSize := QuoteInput.fontSize q;
     QuoteInput.gradientStart := start |}.

(** The state updaters below are the functions passed to [setQuoteInputs]:
    from the previous list of inputs to the next. *)

(** Lines 1677-1681. *)
Definition updateQuoteInput (quoteId : string) (fv : FieldValue)
    (prev : list QuoteInput.t) : list QuoteInput.t :=
  List.map (fun q => if String.eqb (QuoteInput.id q) quoteId then assign q fv else q) prev.

(** Lines 1683-1687. *)
Definition updateQuoteFontSize (quoteId : string) (size : option Q)
    (prev : list QuoteInput.t) : list QuoteInput.t :=
  List.map (fun q => if String.eqb (QuoteInput.id q) quoteId then withFontSize q size else q)
    prev.

(** Lines 1689-1693. *)
Definition updateQuoteGradientStart (quoteId : string) (start : option Q)
    (prev : list QuoteInput.t) : list QuoteInput.t :=
  List.map
    (fun q => if String.eqb (QuoteInput.id q) quoteId then withGradientStart q start else q)
    prev.

Definition blankInput (newId : string) : QuoteInput.t :=
  {| QuoteInput.id := newId; QuoteInput.text := []; QuoteInput.highlightedWord := [];
     QuoteInput.imageUrl := None; QuoteInput.textPosition := bottom;
     QuoteInput.fontSize := None; QuoteInput.gradientStart := None |}.

(** Lines 1695-1698; [newId] is [Date.now().toString()]. *)
Definition addNewQuoteInput (newId : string) (prev : list QuoteInput.t) : list QuoteInput.t :=
  prev ++ [blankInput newId].

(** Lines 1700-1704; the length test and the filter see the same list. *)
Definition removeQuoteInput (quoteId : string) (quoteInputs : list QuoteInput.t)
    : list QuoteInput.t :=
  if (1 <? List.length quoteInputs)%nat
  then filter (fun q => negb (String.eqb (QuoteInput.id q) quoteId)) quoteInputs
  else quoteInputs.

Definition inputIds (inputs : list QuoteInput.t) : list string :=
  List.map QuoteInput.id inputs.

(** ** Numbers as strings *)

(** The integer-valued numbers of the page state, and NaN. *)
Inductive JSNumber : Type :=
| Num (z : Z)
| NaN.

Definition digitValue (c : N) : option N :=
  if ((48 <=? c) && (c <=? 57))%N then Some (c - 48)%N else None.

(** The value of the longest prefix of decimal digits, from [acc]. *)
Fixpoint parseDigits (acc : N) (s : jsstring) : N :=
  match s with
  | [] => acc
  | c :: s' =>
      match digitValue c with
      | Some d => parseDigits (acc * 10 + d)%N s'
      | None => acc
      end
  end.

(** [parseInt(s, 10)]: leading white space is skipped, then an optional
    sign, then the longest prefix of digits; NaN without a digit. The value
    is the exact integer, which is the number JavaScript returns as long as
    it is a [safeInteger] (below). *)
Definition parseInt10 (s : jsstring) : JSNumber :=
  let trimmed := trimStart s in
  let signed :=
    match trimmed with
    | 45%N :: rest => ((-1)%Z, rest)
    | 43%N :: rest => (1%Z, rest)
    | _ => (1%Z, trimmed)
    end in
  match snd signed with
  | c :: _ =>
      match digitValue c with
      | Some _ => Num (fst signed * Z.of_N (parseDigits 0 (snd signed)))
      | None => NaN
      end
  | [] => NaN
  end.

Fixpoint decimalDigits (d : Decimal.uint) : jsstring :=
  match d with
  | Decimal.Nil => []
  | Decimal.D0 d' => 48%N :: decimalDigits d'
  | Decimal.D1 d' => 49%N :: decimalDigits d'
  | Decimal.D2 d' => 50%N :: decimalDigits d'
  | Decimal.D3 d' => 51%N :: decimalDigits d'
  | Decimal.D4 d' => 52%N :: decimalDigits d'
  | Decimal.D5 d' => 53%N :: decimalDigits d'
  | Decimal.D6 d' => 54%N :: decimalDigits d'
  | Decimal.D7 d' => 55%N :: decimalDigits d'
  | Decimal.D8 d' => 56%N :: decimalDigits d'
  | Decimal.D9 d' => 57%N :: decimalDigits d'
  end.

(** [Number.prototype.toString] on an integer of magnitude below 10^21
    (decimal digits, a leading minus sign when negative) and on NaN. *)
Definition numberToString (n : JSNumber) : jsstring :=
  match n with
  | Num z =>
      match Z.to_int z with
      | Decimal.Pos d => decimalDigits d
      | Decimal.Neg d => 45%N :: decimalDigits d
      end
  | NaN => lit "NaN"
  end.

(** Integers that a JavaScript number holds exactly. *)
Definition safeInteger (n : JSNumber) : Prop :=
  match n with
  | Num z => (Z.abs z <= 2 ^ 53)%Z
  | NaN => True
  end.

(** ** The page: per-quote overrides *)

(** Lines 2303-2308: [onChange] of the font size number field of a quote;
    [value] is [e.target.value] and [fontSize] the global size. *)
Definition fontSizeField_onChange (fontSize : Q) (quoteId : string) (value : jsstring)
    (prev : list QuoteInput.t) : list QuoteInput.t :=
  match parseInt10 value with
  | Num val =>
      if ((40 <=? val) && (val <=? 120))%Z
      then updateQuoteFontSize quoteId
             (if Qeq_bool (inject_Z val) fontSize then None else Some (inject_Z val)) prev
      else prev
  | NaN => prev
  end.

(** Lines 2342-2347: [onChange] of the gradient start number field of a
    quote; [val] is [parseFloat(e.target.value) / 100], [None] when that
    is not a finite number. *)
Definition gradientField_onChange (quoteId : string) (val : option Q)
    (prev : list QuoteInput.t) : list QuoteInput.t :=
  match val with
  | Some v =>
      if Qle_bool 0 v && Qle_bool v 1
      then updateQuoteGradientStart quoteId (if Qeq_bool v 0.5 then None else Some v) prev
      else prev
  | None => prev
  end.

(** Every per-quote gradient start lies within [0, 1]. *)
Definition gradientsValid (inputs : list QuoteInput.t) : Prop :=
  Forall (fun q => match QuoteInput.gradientStart q with
                   | Some g => validOffset g
                   | None => True
                   end) inputs.

(** ** The page: generating the quotes *)

Section Generate.

(** The outcome of loading [img.src = url]: the decoded image ([onload])
    or nothing ([onerror]). *)
Variable loadImage : string -> option Canvas.Image.

(** [smartcrop.crop(img, ...)]: its [topCrop], or nothing when it rejects. *)
Variable smartcrop : Canvas.Image -> option CropData.t.

(** Lines 1730-1772: the quote the promise resolves with, or nothing when
    it rejects. A null [imageUrl], which [generateAllQuotes] never passes,
    is assigned to [img.src] as "null" and kept as that string. *)
Definition processQuoteInput (input : QuoteInput.t) : option Quote.t :=
  let imageUrl :=
    match QuoteInput.imageUrl input with
    | Some url => url
    | None => "null"%string
    end in
  match loadImage imageUrl with
  | Some img =>
      Some {| Quote.id := QuoteInput.id input;
              Quote.text := QuoteInput.text input;
              Quote.highlightedWord := QuoteInput.highlightedWord input;
              Quote.imageUrl := imageUrl;
              Quote.image := img;
              Quote.textPosition := QuoteInput.textPosition input;
              Quote.fontSize := QuoteInput.fontSize input;
              Quote.gradientStart := QuoteInput.gradientStart input;
              Quote.cropData := smartcrop img |}
  | None => None
  end.

(** Line 1708: [q.text && q.imageUrl]. *)
Definition isValidInput (q : QuoteInput.t) : bool :=
  nonEmpty (QuoteInput.text q)
  && match QuoteInput.imageUrl q with
     | Some url => negb (String.eqb url EmptyString)
     | None => false
     end.

(** What [generateAllQuotes] leaves: the generated quotes and whether the
    alert was shown. *)
Record Generation : Type := {
  generatedQuotes : list Quote.t;
  alerted : bool
}.

(** Lines 1706-1728, from the current inputs and generated quotes. *)
Definition generateAllQuotes (quoteInputs : list QuoteInput.t)
    (generated : list Quote.t) : Generation :=
  let validInputs := filter isValidInput quoteInputs in
  if (List.length validInputs =? 0)%nat
  then {| generatedQuotes := generated; alerted := true |}
  else
    {| generatedQuotes :=
         fold_left
           (fun newGeneratedQuotes input =>
              match processQuoteInput input with
              | Some quote => newGeneratedQuotes ++ [quote]
              | None => newGeneratedQuotes
              end)
           validInputs [];
       alerted := false |}.

End Generate.

(** ** The page: redrawing the canvases *)

(** [canvasRefs.current]: the canvases by quote id; a key without a canvas
    element is absent. *)
Definition Refs : Type := list (string * Canvas.t).

Fixpoint lookupRef (id : string) (refs : Refs) : option Canvas.t :=
  match refs with
  | [] => None
  | (key, canvas) :: rest => if String.eqb key id then Some canvas else lookupRef id rest
  end.

(** The canvas found under [id] replaced by its state after drawing. *)
Fixpoint storeRef (id : string) (canvas : Canvas.t) (refs : Refs) : Refs :=
  match refs with
  | [] => []
  | (key, old) :: rest =>
      if String.eqb key id then (key, canvas) :: rest
      else (key, old) :: storeRef id canvas rest
  end.

Inductive EffectOutcome : Type :=
| Finished (refs : Refs)
| Aborted (e : Canvas.Exn) (refs : Refs).

Definition refsOf (o : EffectOutcome) : Refs :=
  match o with Finished refs => refs | Aborted _ refs => refs end.

Section Redraw.

Variable toUpperCase : jsstring -> jsstring.
Variable textWidth : Canvas.Font -> jsstring -> Q.
Variable cssColor : string -> bool.
Variable settings : Settings.t.

(** [image.complete]. *)
Variable complete : Canvas.Image -> bool.

(** Lines 2040-2045: the body of [generatedQuotes.forEach]. *)
Definition redraw (quote : Quote.t) (refs : Refs) : EffectOutcome :=
  match lookupRef (Quote.id quote) refs with
  | Some canvas =>
      if complete (Quote.image quote) then
        match drawQuoteOnCanvas toUpperCase textWidth cssColor settings quote canvas with
        | Canvas.Done _ canvas' => Finished (storeRef (Quote.id quote) canvas' refs)
        | Canvas.Throw e canvas' => Aborted e (storeRef (Quote.id quote) canvas' refs)
        end
      else Finished refs
  | None => Finished refs
  end.

(** Lines 2039-2046: the effect that redraws every generated quote; an
    exception leaves the loop. *)
Fixpoint redrawEffect (generatedQuotes : list Quote.t) (refs : Refs) : EffectOutcome :=
  match generatedQuotes with
  | [] => Finished refs
  | quote :: rest =>
      match redraw quote refs with
      | Finished refs' => redrawEffect rest refs'
      | Aborted e refs' => Aborted e refs'
      end
  end.

(** The last generated quote that is drawn on the canvas of [id]. *)
Definition lastDrawn (id : string) (generatedQuotes : list Quote.t) : option Quote.t :=
  find (fun q => String.eqb (Quote.id q) id && complete (Quote.image q))
    (rev generatedQuotes).

End Redraw.

(** ** The page: persisted settings *)

(** [localStorage]. *)
Module Storage.
Definition t : Type := string -> option jsstring.
Definition getItem (key : string) (s : t) : option jsstring := s key.
Definition setItem (key : string) (value : jsstring) (s : t) : t :=
  fun k => if String.eqb k key then Some value else s k.
Definition clear (_ : t) : t := fun _ => None.
End Storage.

(** The four settings of the component state. *)
Module PageState.
Record t : Type := {
  artistName : jsstring;
  highlightColor : jsstring;
  selectedFont : jsstring;
  fontSize : JSNumber
}.
End PageState.

(** Lines 1472-1475: the initial state. *)
Definition initialState : PageState.t :=
  {| PageState.artistName := [];
     PageState.highlightColor := lit "#FF8C00";
     PageState.selectedFont := lit "Oswald";
     PageState.fontSize := Num 70 |}.

(** [if (saved) set(f(saved))]: a missing or empty item keeps the state. *)
Definition restored {A} (saved : option jsstring) (f : jsstring -> A) (current : A) : A :=
  match saved with
  | Some (c :: s) => f (c :: s)
  | _ => current
  end.

(** Lines 1485-1503: the settings part of the effect run on mount. *)
Definition loadSettings (storage : Storage.t) (state : PageState.t) : PageState.t :=
  {| PageState.artistName :=
       restored (Storage.getItem "artistName" storage) (fun s => s)
         (PageState.artistName state);
     PageState.highlightColor :=
       restored (Storage.getItem "highlightColor" storage) (fun s => s)
         (PageState.highlightColor state);
     PageState.selectedFont :=
       restored (Storage.getItem "selectedFont" storage) (fun s => s)
         (PageState.selectedFont state);
     PageState.fontSize :=
       restored (Storage.getItem "fontSize" storage) parseInt10
         (PageState.fontSize state) |}.

(** Lines 1560-1581: the four handlers, on the state and the storage. *)
Definition handleArtistNameChange (name : jsstring) (p : PageState.t * Storage.t)
    : PageState.t * Storage.t :=
  ({| PageState.artistName := name;
      PageState.highlightColor := PageState.highlightColor (fst p);
      PageState.selectedFont := PageState.selectedFont (fst p);
      PageState.fontSize := PageState.fontSize (fst p) |},
   Storage.setItem "artistName" name (snd p)).

Definition handleHighlightColorChange (color : jsstring) (p : PageState.t * Storage.t)
    : PageState.t * Storage.t :=
  ({| PageState.artistName := PageState.artistName (fst p);
      PageState.highlightColor := color;
      PageState.selectedFont := PageState.selectedFont (fst p);
      PageState.fontSize := PageState.fontSize (fst p) |},
   Storage.setItem "highlightColor" color (snd p)).

Definition handleFontChange (font : jsstring) (p : PageState.t * Storage.t)
    : PageState.t * Storage.t :=
  ({| PageState.artistName := PageState.artistName (fst p);
      PageState.highlightColor := PageState.highlightColor (fst p);
      PageState.selectedFont := font;
      PageState.fontSize := PageState.fontSize (fst p) |},
   Storage.setItem "selectedFont" font (snd p)).

Definition handleFontSizeChange (size : JSNumber) (p : PageState.t * Storage.t)
    : PageState.t * Storage.t :=
  ({| PageState.artistName := PageState.artistName (fst p);
      PageState.highlightColor := PageState.highlightColor (fst p);
      PageState.selectedFont := PageState.selectedFont (fst p);
      PageState.fontSize := size |},
   Storage.setItem "fontSize" (numberToString size) (snd p)).

(** A setting as the next mount finds it: the saved string, or the default
    when the saved string is empty. *)
Definition orDefault (saved fallback : jsstring) : jsstring :=
  if nonEmpty saved then saved else fallback.



(** ** The page: the font stylesheet *)

(** A [link] element of the document head: its id and its [href]. *)
Record Link : Type := { linkId : jsstring; href : jsstring }.



(** [document.getElementById(linkId)] followed by [remove()]: the first
    link with the id is taken out. The ids of the form google-font-... are
    taken to occur on links of the head only. *)
Fixpoint removeFirst (id : jsstring) (head : list Link) : list Link :=
  match head with
  | [] => []
  | l :: rest => if JS.eqb (linkId l) id then rest else l :: removeFirst id rest
  end.


Definition linkIds (head : list Link) : list jsstring := List.map linkId head.

(** ** Sample page data *)

Module SampleInputs.

Definition withImage (id : string) (text : jsstring) : QuoteInput.t :=
  {| QuoteInput.id := id; QuoteInput.text := text; QuoteInput.highlightedWord := [];
     QuoteInput.imageUrl := Some "blob:photo"%string; QuoteInput.textPosition := bottom;
     QuoteInput.fontSize := None; QuoteInput.gradientStart := None |}.

(** Only the URL "blob:photo" loads. *)
Definition loadImage (url : string) : option Canvas.Image :=
  if String.eqb url "blob:photo" then Some (Sample.image 2000 1000) else None.

Definition smartcrop (_ : Canvas.Image) : option CropData.t := None.

Definition complete (_ : Canvas.Image) : bool := true.

(** The quote generated from [withImage id text]. *)
Definition quote (id : string) (text : jsstring) (gradientStart : option Q) : Quote.t :=
  {| Quote.id := id; Quote.text := text; Quote.highlightedWord := [];
     Quote.imageUrl := "blob:photo"; Quote.image := Sample.image 2000 1000;
     Quote.textPosition := bottom; Quote.fontSize := None;
     Quote.gradientStart := gradientStart; Quote.cropData := None |}.

End SampleInputs.

(** * Properties *)

(** ** Numbers *)

Lemma Qgtb_true x y : Qgtb x y = true <-> y < x.
Proof.
  unfold Qgtb. rewrite negb_true_iff. split.
  - intros H. apply Qnot_le_lt. intros L. apply Qle_bool_iff in L. congruence.
  - intros H. destruct (Qle_bool x y) eqn:E; [|reflexivity].
    apply Qle_bool_iff in E. exfalso. exact (Qlt_not_le _ _ H E).
Qed.

Lemma Qltb_true x y : Qltb x y = true <-> x < y.
Proof. apply Qgtb_true. Qed.

Lemma Qltb_false x y : Qltb x y = false <-> y <= x.
Proof.
  unfold Qltb. rewrite negb_false_iff. apply Qle_bool_iff.
Qed.

(** ** Facts about the string operations *)

Section StringFacts.

Lemma eqb_eq (a b : jsstring) : JS.eqb a b = true <-> a = b.
Proof.
  revert b; induction a as [|x a IH]; intros [|y b]; simpl;
    try (split; [discriminate | discriminate]); try tauto.
  rewrite andb_true_iff, N.eqb_eq, IH. split.
  - intros [-> ->]; reflexivity.
  - intros E; injection E; auto.
Qed.

Lemma nonEmpty_true (s : jsstring) : nonEmpty s = true <-> s <> [].
Proof. destruct s; simpl; split; congruence. Qed.

Lemma nonEmpty_app_r (a b : jsstring) : nonEmpty b = true -> nonEmpty (a ++ b) = true.
Proof. destruct a, b; simpl; auto. Qed.

Lemma space_isWhiteSpace : isWhiteSpace SPACE = true.
Proof. reflexivity. Qed.

Lemma split_not_nil sep s : split sep s <> [].
Proof.
  destruct s as [|c s]; simpl; [discriminate|].
  destruct (N.eqb c sep); [discriminate|].
  destruct (split sep s); discriminate.
Qed.

Lemma splitWsFrom_not_nil b s : splitWsFrom b s <> [].
Proof.
  revert b; induction s as [|c s IH]; intros b; simpl; [discriminate|].
  destruct (isWhiteSpace c).
  - destruct b; [apply IH | discriminate].
  - destruct (splitWsFrom false s); discriminate.
Qed.

(** Joining the pieces of [split], each followed by the separator, gives
    back the string followed by one separator. *)
Lemma split_join sep s :
  concat (List.map (fun w => w ++ [sep]) (split sep s)) = s ++ [sep].
Proof.
  induction s as [|c s IH]; simpl; [reflexivity|].
  destruct (N.eqb c sep) eqn:E.
  - apply N.eqb_eq in E; subst c. simpl. now rewrite IH.
  - destruct (split sep s) as [|w ws] eqn:Es.
    + now destruct (split_not_nil sep s).
    + simpl in *. now rewrite IH.
Qed.







End StringFacts.

(** ** White-space words *)

Section WordFacts.

Let ne : list jsstring -> list jsstring := filter nonEmpty.

Lemma ne_cons h t : ne (h :: t) = ne [h] ++ ne t.
Proof. unfold ne; simpl. now destruct (nonEmpty h). Qed.

Lemma trimStart_wsFree s : wsFree s -> trimStart s = s.
Proof. intros [|c r Hc _]; simpl; [reflexivity | now rewrite Hc]. Qed.

Lemma trimStart_wsFree_head c s :
  isWhiteSpace c = false -> trimStart (c :: s) = c :: s.
Proof. intros H; simpl; now rewrite H. Qed.

Lemma trim_wsFree s : wsFree s -> trim s = s.
Proof.
  intros H. unfold trim, trimEnd.
  rewrite (trimStart_wsFree s H).
  rewrite (trimStart_wsFree (rev s)) by (apply Forall_rev; exact H).
  apply rev_involutive.
Qed.

Lemma splitWsFrom_wsFree b s : Forall wsFree (splitWsFrom b s).
Proof.
  revert b; induction s as [|c s IH]; intros b; simpl.
  - repeat constructor.
  - destruct (isWhiteSpace c) eqn:E.
    + destruct b; [apply IH | constructor; [constructor | apply IH]].
    + specialize (IH false). destruct (splitWsFrom false s) as [|w ws].
      * repeat constructor; exact E.
      * inversion IH; subst. constructor; [constructor; assumption | assumption].
Qed.

Lemma filter_trim_nonEmpty l :
  Forall wsFree l ->
  filter (fun word => (0 <? List.length (trim word))%nat) l = ne l.
Proof.
  induction 1 as [|w l Hw _ IH]; simpl; [reflexivity|].
  rewrite (trim_wsFree w Hw), IH. now destruct w.
Qed.

Lemma lineWords_ne s : lineWords s = ne (splitWsFrom false s).
Proof. apply filter_trim_nonEmpty, splitWsFrom_wsFree. Qed.

Lemma ne_splitWsFrom_flag s : ne (splitWsFrom true s) = ne (splitWsFrom false s).
Proof.
  destruct s as [|c s]; simpl; [reflexivity|].
  destruct (isWhiteSpace c); reflexivity.
Qed.

Lemma lineWords_nil : lineWords [] = [].
Proof. reflexivity. Qed.

Lemma lineWords_ws_cons c s : isWhiteSpace c = true -> lineWords (c :: s) = lineWords s.
Proof.
  intros H. rewrite !lineWords_ne. simpl. rewrite H. simpl.
  apply ne_splitWsFrom_flag.
Qed.

(** The pieces before a white-space character are those of the prefix. *)
Lemma splitWs_app_ws a c b :
  isWhiteSpace c = true ->
  exists h t t',
    splitWsFrom false a = h :: t /\
    splitWsFrom false (a ++ c :: b) = h :: t' /\
    ne t' = ne t ++ lineWords b.
Proof.
  intros Hc. induction a as [|x a (h & t & t' & E1 & E2 & E3)]; simpl.
  - rewrite Hc. exists [], [], (splitWsFrom true b). repeat split.
    rewrite lineWords_ne. apply ne_splitWsFrom_flag.
  - destruct (isWhiteSpace x).
    + exists [], (splitWsFrom true a), (splitWsFrom true (a ++ c :: b)).
      repeat split. rewrite !ne_splitWsFrom_flag, E1, E2.
      rewrite (ne_cons h t'), (ne_cons h t).
      now rewrite E3, app_assoc.
    + rewrite E1, E2. exists (x :: h), t, t'. now repeat split.
Qed.

Lemma lineWords_app_ws a c b :
  isWhiteSpace c = true -> lineWords (a ++ c :: b) = lineWords a ++ lineWords b.
Proof.
  intros Hc. destruct (splitWs_app_ws a c b Hc) as (h & t & t' & E1 & E2 & E3).
  rewrite (lineWords_ne (a ++ c :: b)), (lineWords_ne a), E1, E2.
  rewrite (ne_cons h t'), (ne_cons h t).
  now rewrite E3, app_assoc.
Qed.

Lemma lineWords_snoc_ws a c : isWhiteSpace c = true -> lineWords (a ++ [c]) = lineWords a.
Proof. intros Hc. rewrite (lineWords_app_ws a c [] Hc). apply app_nil_r. Qed.

Lemma trimStart_decomp s :
  exists k, s = k ++ trimStart s /\ Forall (fun c => isWhiteSpace c = true) k.
Proof.
  induction s as [|c s (k & E & F)]; simpl.
  - exists []; split; [reflexivity | constructor].
  - destruct (isWhiteSpace c) eqn:Hc.
    + exists (c :: k); split; [simpl; now rewrite <- E | now constructor].
    + exists []; split; [reflexivity | constructor].
Qed.

Lemma trimStart_idempotent s : trimStart (trimStart s) = trimStart s.
Proof.
  induction s as [|c s IH]; simpl; [reflexivity|].
  destruct (isWhiteSpace c) eqn:E; [exact IH|]. simpl. now rewrite E.
Qed.

Lemma lineWords_trimStart s : lineWords (trimStart s) = lineWords s.
Proof.
  induction s as [|c s IH]; simpl; [reflexivity|].
  destruct (isWhiteSpace c) eqn:Hc; [|reflexivity].
  now rewrite (lineWords_ws_cons c s Hc).
Qed.

Lemma lineWords_app_allws s k :
  Forall (fun c => isWhiteSpace c = true) k -> lineWords (s ++ k) = lineWords s.
Proof.
  intros F; revert s; induction F as [|c k Hc _ IH]; intros s.
  - now rewrite app_nil_r.
  - change (c :: k) with ([c] ++ k). rewrite app_assoc, IH.
    now apply lineWords_snoc_ws.
Qed.

Lemma lineWords_trimEnd s : lineWords (trimEnd s) = lineWords s.
Proof.
  unfold trimEnd. destruct (trimStart_decomp (rev s)) as (k & E & F).
  assert (Es : s = rev (trimStart (rev s)) ++ rev k).
  { rewrite <- rev_app_distr, <- E. symmetry; apply rev_involutive. }
  rewrite Es at 2. symmetry. apply lineWords_app_allws, Forall_rev, F.
Qed.

Lemma lineWords_trim s : lineWords (trim s) = lineWords s.
Proof. unfold trim. now rewrite lineWords_trimEnd, lineWords_trimStart. Qed.

(** With the space as only white space, the white-space words are the
    non-empty pieces of the split on single spaces. *)
Lemma split_splitWs_agree s :
  onlySpaceWs s ->
  exists h t t',
    split SPACE s = h :: t /\ splitWsFrom false s = h :: t' /\ ne t = ne t'.
Proof.
  induction 1 as [|c s Hc _ (h & t & t' & E1 & E2 & E3)]; simpl.
  - now exists [], [], [].
  - destruct (N.eqb c SPACE) eqn:Ec.
    + apply N.eqb_eq in Ec; subst c. rewrite space_isWhiteSpace.
      exists [], (split SPACE s), (splitWsFrom true s). repeat split.
      rewrite ne_splitWsFrom_flag, E1, E2.
      rewrite (ne_cons h t), (ne_cons h t').
      now rewrite E3.
    + destruct (isWhiteSpace c) eqn:Hw.
      * apply N.eqb_neq in Ec. now destruct Ec; apply Hc.
      * rewrite E1, E2. exists (c :: h), t, t'. now repeat split.
Qed.

Lemma lineWords_onlySpace s :
  onlySpaceWs s -> lineWords s = filter nonEmpty (split SPACE s).
Proof.
  intros H. destruct (split_splitWs_agree s H) as (h & t & t' & E1 & E2 & E3).
  rewrite lineWords_ne, E1, E2.
  fold ne. rewrite (ne_cons h t), (ne_cons h t'). now rewrite E3.
Qed.

Lemma lineWords_wsFree w : wsFree w -> w <> [] -> lineWords w = [w].
Proof.
  intros H Hn. rewrite lineWords_ne.
  assert (G : forall s, wsFree s -> splitWsFrom false s = [s]).
  { induction 1 as [|c s Hc _ IH]; simpl; [reflexivity|]. now rewrite Hc, IH. }
  rewrite (G w H). destruct w; [congruence | reflexivity].
Qed.

(** The words of the renderer are the tokens of the specification. *)
Lemma lineWords_tokensFrom s : forall current,
  wsFree current -> lineWords (current ++ s) = tokensFrom current s.
Proof.
  induction s as [|c s IH]; intros current H; cbn [tokensFrom].
  - rewrite app_nil_r. destruct current as [|d t]; [reflexivity|].
    now apply lineWords_wsFree.
  - destruct (isWhiteSpace c) eqn:E.
    + rewrite (lineWords_app_ws current c s E).
      rewrite <- (IH [] (Forall_nil _)). cbn [app]. f_equal.
      destruct current as [|d t]; [reflexivity|].
      now apply lineWords_wsFree.
    + rewrite <- IH.
      * now rewrite <- app_assoc.
      * apply Forall_app. split; [exact H | now repeat constructor].
Qed.

Lemma lineWords_tokens s : lineWords s = whitespaceTokens s.
Proof. apply (lineWords_tokensFrom s []). constructor. Qed.




End WordFacts.

(** ** The text layout engine *)

Section Layout.

Variable toUpperCase : jsstring -> jsstring.
Variable width : jsstring -> Q.

Implicit Types (word currentLine text : jsstring).
Implicit Types (words pre post lines done : list jsstring).

Lemma lineWords_app_endsWithSpace c r :
  endsWithSpace c -> lineWords (c ++ r) = lineWords c ++ lineWords r.
Proof.
  intros [-> | (p & ->)]; [reflexivity|].
  rewrite <- app_assoc. simpl.
  rewrite (lineWords_app_ws p SPACE r space_isWhiteSpace).
  now rewrite (lineWords_snoc_ws p SPACE space_isWhiteSpace).
Qed.



Lemma wrapWord_endsWithSpace st word :
  endsWithSpace (snd (wrapWord width st word)).
Proof.
  destruct st as [lines currentLine]. unfold wrapWord.
  destruct (_ && _); simpl; right.
  - now exists word.
  - exists (currentLine ++ word). now rewrite <- app_assoc.
Qed.

Lemma wordsSoFar_wrapWord st word :
  endsWithSpace (snd st) ->
  wordsSoFar (wrapWord width st word) = wordsSoFar st ++ lineWords (word ++ [SPACE]).
Proof.
  destruct st as [lines currentLine]. intros He. unfold wrapWord, wordsSoFar.
  destruct (_ && _); simpl in *.
  - rewrite flat_map_app. simpl. rewrite app_nil_r, lineWords_trim.
    now rewrite <- app_assoc.
  - rewrite (lineWords_app_endsWithSpace _ _ He). now rewrite <- app_assoc.
Qed.

Lemma wordsSoFar_fold words : forall st,
  endsWithSpace (snd st) ->
  wordsSoFar (fold_left (wrapWord width) words st)
  = wordsSoFar st ++ flat_map (fun w => lineWords (w ++ [SPACE])) words.
Proof.
  induction words as [|w words IH]; intros st He; simpl.
  - now rewrite app_nil_r.
  - rewrite IH by apply wrapWord_endsWithSpace.
    rewrite (wordsSoFar_wrapWord _ _ He). now rewrite <- app_assoc.
Qed.

Lemma wordsSoFar_flushLine st :
  flat_map lineWords (flushLine st) = wordsSoFar st.
Proof.
  destruct st as [lines currentLine]. unfold flushLine, wordsSoFar. simpl.
  destruct currentLine as [|c s]; simpl nonEmpty; cbv iota.
  - now rewrite lineWords_nil, app_nil_r.
  - rewrite flat_map_app. simpl. now rewrite app_nil_r, lineWords_trim.
Qed.

Lemma lineWords_joined words :
  flat_map (fun w => lineWords (w ++ [SPACE])) words
  = lineWords (concat (List.map (fun w => w ++ [SPACE]) words)).
Proof.
  induction words as [|w words IH]; simpl; [reflexivity|].
  rewrite (lineWords_app_endsWithSpace (w ++ [SPACE])) by (right; now exists w).
  now rewrite IH.
Qed.

Lemma wrapWords_words words :
  flat_map lineWords (wrapWords width words)
  = lineWords (concat (List.map (fun w => w ++ [SPACE]) words)).
Proof.
  unfold wrapWords. rewrite wordsSoFar_flushLine, wordsSoFar_fold by now left.
  apply lineWords_joined.
Qed.

Lemma layoutLines_words text :
  flat_map lineWords (layoutLines toUpperCase width text) = lineWords (toUpperCase text).
Proof.
  unfold layoutLines. rewrite wrapWords_words, split_join.
  apply lineWords_snoc_ws, space_isWhiteSpace.
Qed.








(** The layout never yields an empty list of lines. *)
Lemma fold_wrapWord_nonEmpty words : forall st,
  nonEmpty (snd st) = true ->
  nonEmpty (snd (fold_left (wrapWord width) words st)) = true.
Proof.
  induction words as [|w words IH]; intros st H; simpl; [exact H|].
  apply IH. destruct st as [lines currentLine]. unfold wrapWord.
  destruct (_ && _); simpl.
  - apply nonEmpty_app_r; reflexivity.
  - apply nonEmpty_app_r, nonEmpty_app_r; reflexivity.
Qed.

Lemma layoutLines_not_nil text : layoutLines toUpperCase width text <> [].
Proof.
  unfold layoutLines, wrapWords.
  destruct (split SPACE (toUpperCase text)) as [|w words] eqn:E.
  - now destruct (split_not_nil SPACE (toUpperCase text)).
  - simpl.
    assert (H : nonEmpty (snd (fold_left (wrapWord width) words
                                 (wrapWord width ([], []) w))) = true).
    { apply fold_wrapWord_nonEmpty. unfold wrapWord. simpl.
      rewrite andb_false_r. simpl. apply nonEmpty_app_r. reflexivity. }
    destruct (fold_left _ _ _) as [lines currentLine]. simpl in H.
    unfold flushLine. rewrite H. now destruct lines.
Qed.

End Layout.

(** ** Running the renderer *)

Section Run.

Variable toUpperCase : jsstring -> jsstring.
Variable textWidth : Canvas.Font -> jsstring -> Q.
Variable cssColor : string -> bool.
Variable settings : Settings.t.

Implicit Types (quote : Quote.t) (c : Canvas.t) (k : Canvas.Context).
Implicit Types (line lineWord : jsstring) (lines words : list jsstring).

Ltac run :=
  cbv beta iota delta
    [Canvas.bind Canvas.ret Canvas.getWidth Canvas.getHeight Canvas.getFont
     Canvas.setFont Canvas.setFillStyle Canvas.setTextAlign
     Canvas.setTextBaseline Canvas.withCtx Canvas.paint Canvas.fillText
     Canvas.fillRect Canvas.drawImage Canvas.drawImageCropped measureText
     Canvas.setWidth Canvas.setHeight paintOn
     Canvas.has2d Canvas.width Canvas.height Canvas.ctx Canvas.bitmap
     Canvas.font Canvas.fillStyle Canvas.textAlign Canvas.textBaseline].

Lemma paintOn_nil c : paintOn c (Canvas.ctx c) [] = c.
Proof. destruct c; unfold paintOn; simpl. now rewrite app_nil_r. Qed.

Lemma paintOn_paintOn c k ops k' ops' :
  paintOn (paintOn c k ops) k' ops' = paintOn c k' (ops ++ ops').
Proof. unfold paintOn; simpl. now rewrite app_assoc. Qed.

Lemma wordContext_font quote k lineWord :
  Canvas.font (wordContext toUpperCase cssColor settings quote k lineWord) = Canvas.font k.
Proof. reflexivity. Qed.

Lemma wordContext_baseline quote k lineWord :
  Canvas.textBaseline (wordContext toUpperCase cssColor settings quote k lineWord)
  = Canvas.textBaseline k.
Proof. reflexivity. Qed.

Lemma wordsContext_font quote words : forall k,
  Canvas.font (wordsContext toUpperCase cssColor settings quote k words) = Canvas.font k.
Proof.
  unfold wordsContext. induction words as [|w words IH]; intros k; simpl;
    [reflexivity | now rewrite IH].
Qed.

Lemma wordsContext_baseline quote words : forall k,
  Canvas.textBaseline (wordsContext toUpperCase cssColor settings quote k words)
  = Canvas.textBaseline k.
Proof.
  unfold wordsContext. induction words as [|w words IH]; intros k; simpl;
    [reflexivity | now rewrite IH].
Qed.

Lemma linesContext_font quote lines : forall k,
  Canvas.font (linesContext toUpperCase cssColor settings quote k lines) = Canvas.font k.
Proof.
  induction lines as [|l lines IH]; intros k; simpl; [reflexivity|].
  now rewrite IH, wordsContext_font.
Qed.

Lemma linesContext_baseline quote lines : forall k,
  Canvas.textBaseline (linesContext toUpperCase cssColor settings quote k lines)
  = Canvas.textBaseline k.
Proof.
  induction lines as [|l lines IH]; intros k; simpl; [reflexivity|].
  now rewrite IH, wordsContext_baseline.
Qed.

Lemma drawWord_run quote y lineX lineWord c :
  drawWord toUpperCase textWidth cssColor settings quote y lineX lineWord c
  = Canvas.Done
      (lineX + (textWidth (Canvas.font (Canvas.ctx c)) lineWord
                + textWidth (Canvas.font (Canvas.ctx c)) [SPACE]))
      (paintOn c (wordContext toUpperCase cssColor settings quote (Canvas.ctx c) lineWord)
         [Canvas.FillText lineWord lineX y
            (wordContext toUpperCase cssColor settings quote (Canvas.ctx c) lineWord)]).
Proof.
  unfold drawWord, wordContext.
  destruct (shouldHighlight toUpperCase quote lineWord); run; reflexivity.
Qed.

Lemma drawWords_run quote y words : forall lineX c,
  exists x,
    Canvas.forEachVar (drawWord toUpperCase textWidth cssColor settings quote y) words lineX c
    = Canvas.Done x
        (paintOn c (wordsContext toUpperCase cssColor settings quote (Canvas.ctx c) words)
           (wordOps toUpperCase textWidth cssColor settings quote (Canvas.ctx c) y lineX words)).
Proof.
  induction words as [|w words IH]; intros lineX c.
  - exists lineX. simpl. unfold Canvas.ret. now rewrite paintOn_nil.
  - cbn [Canvas.forEachVar]. unfold Canvas.bind at 1. rewrite drawWord_run.
    match goal with |- context [Canvas.forEachVar _ _ ?x ?c'] =>
      destruct (IH x c') as (x' & E) end.
    exists x'. rewrite E, paintOn_paintOn. reflexivity.
Qed.

Lemma drawLine_run quote centerX startY line lineIndex c :
  drawLine toUpperCase textWidth cssColor settings quote centerX startY line lineIndex c
  = Canvas.Done tt
      (paintOn c (wordsContext toUpperCase cssColor settings quote (Canvas.ctx c) (lineWords line))
         (lineOps toUpperCase textWidth cssColor settings quote (Canvas.ctx c) centerX startY
            line lineIndex)).
Proof.
  unfold drawLine, lineOps, lineY.
  unfold Canvas.bind at 1. unfold measureText at 1.
  unfold Canvas.bind at 1.
  match goal with |- context [Canvas.forEachVar _ ?ws ?x ?c'] =>
    destruct (drawWords_run quote
                (startY + inject_Z (Z.of_nat lineIndex) * lineHeight settings quote)
                ws x c') as (x' & E) end.
  rewrite E. reflexivity.
Qed.

Lemma drawLines_run quote centerX startY lines : forall lineIndex c,
  Canvas.forEachFrom lineIndex
    (drawLine toUpperCase textWidth cssColor settings quote centerX startY) lines c
  = Canvas.Done tt
      (paintOn c (linesContext toUpperCase cssColor settings quote (Canvas.ctx c) lines)
         (linesOps toUpperCase textWidth cssColor settings quote (Canvas.ctx c) centerX startY
            lineIndex lines)).
Proof.
  induction lines as [|l lines IH]; intros lineIndex c.
  - simpl. unfold Canvas.ret. now rewrite paintOn_nil.
  - cbn [Canvas.forEachFrom linesOps linesContext]. unfold Canvas.bind at 1.
    rewrite drawLine_run, IH, paintOn_paintOn. reflexivity.
Qed.

Lemma drawOpeningQuote_run quote lines centerX startY c :
  drawOpeningQuote textWidth cssColor settings quote lines centerX startY c
  = Canvas.Done tt
      (paintOn c (afterQuoteMark settings quote (Canvas.ctx c) lines)
         (quoteMarkOps textWidth settings quote (Canvas.ctx c) lines centerX startY)).
Proof.
  destruct lines as [|firstLineText rest].
  - simpl. unfold Canvas.ret. now rewrite paintOn_nil.
  - unfold drawOpeningQuote, quoteMarkOps, afterQuoteMark, quoteMarkContext,
      quoteMarkFont. run. reflexivity.
Qed.

Lemma drawArtistName_run quote centerX canvasHeight c :
  drawArtistName toUpperCase cssColor settings quote centerX canvasHeight c
  = Canvas.Done tt
      (paintOn c (captionContext (Canvas.ctx c))
         [captionOp toUpperCase settings centerX canvasHeight (Canvas.ctx c)]).
Proof.
  unfold drawArtistName, captionOp, captionContext. run.
  destruct (Quote.textPosition quote); reflexivity.
Qed.

Lemma drawBackground_run quote c :
  drawBackground quote c
  = Canvas.Done tt
      (paintOn c (Canvas.ctx c) [backgroundOp quote (Canvas.width c) (Canvas.height c)]).
Proof.
  unfold drawBackground, backgroundOp. run.
  destruct (Quote.cropData quote); reflexivity.
Qed.

Lemma addColorStop_valid g offset color c :
  validOffset offset ->
  Canvas.addColorStop g offset color c
  = Canvas.Done
      {| Canvas.x0 := Canvas.x0 g; Canvas.y0 := Canvas.y0 g;
         Canvas.x1 := Canvas.x1 g; Canvas.y1 := Canvas.y1 g;
         Canvas.colorStops := Canvas.colorStops g ++ [(offset, color)] |} c.
Proof.
  intros [H0 H1]. unfold Canvas.addColorStop.
  apply Qle_bool_iff in H0, H1. now rewrite H0, H1.
Qed.

Lemma addColorStop_invalid g offset color c :
  ~ validOffset offset ->
  Canvas.addColorStop g offset color c = Canvas.Throw Canvas.IndexSizeError c.
Proof.
  intros H. unfold Canvas.addColorStop.
  destruct (Qle_bool 0 offset && Qle_bool offset 1) eqn:E; [|reflexivity].
  apply andb_true_iff in E. destruct E as [E0 E1].
  exfalso. apply H. split; now apply Qle_bool_iff.
Qed.

Lemma validOffset_0 : validOffset 0.
Proof. split; now apply Qle_bool_iff. Qed.

Lemma validOffset_1 : validOffset 1.
Proof. split; now apply Qle_bool_iff. Qed.

Lemma buildGradient_run quote canvasHeight c :
  validOffset (gradientStartPosition quote) ->
  buildGradient quote canvasHeight c
  = Canvas.Done (overlayGradient quote canvasHeight) c.
Proof.
  intros H. unfold buildGradient, overlayGradient, gradientStops.
  destruct (Quote.textPosition quote); unfold Canvas.bind;
    rewrite (addColorStop_valid _ _ _ c validOffset_0);
    rewrite (addColorStop_valid _ _ _ c H);
    rewrite (addColorStop_valid _ _ _ c validOffset_1); reflexivity.
Qed.

Lemma buildGradient_throw quote canvasHeight c :
  ~ validOffset (gradientStartPosition quote) ->
  buildGradient quote canvasHeight c = Canvas.Throw Canvas.IndexSizeError c.
Proof.
  intros H. unfold buildGradient.
  destruct (Quote.textPosition quote); unfold Canvas.bind;
    rewrite (addColorStop_valid _ _ _ c validOffset_0);
    rewrite (addColorStop_invalid _ _ _ c H); reflexivity.
Qed.

Lemma drawGradient_run quote c :
  validOffset (gradientStartPosition quote) ->
  drawGradient cssColor quote c
  = Canvas.Done tt
      (paintOn c
         {| Canvas.font := Canvas.font (Canvas.ctx c);
            Canvas.fillStyle := Canvas.Linear (overlayGradient quote (Canvas.height c));
            Canvas.textAlign := Canvas.textAlign (Canvas.ctx c);
            Canvas.textBaseline := Canvas.textBaseline (Canvas.ctx c) |}
         [overlayOp quote (Canvas.width c) (Canvas.height c)]).
Proof.
  intros H. unfold drawGradient, overlayOp.
  unfold Canvas.bind at 1. unfold Canvas.getWidth at 1.
  unfold Canvas.bind at 1. unfold Canvas.getHeight at 1.
  unfold Canvas.bind at 1. rewrite (buildGradient_run _ _ _ H).
  run. reflexivity.
Qed.

Lemma drawGradient_throw quote c :
  ~ validOffset (gradientStartPosition quote) ->
  drawGradient cssColor quote c = Canvas.Throw Canvas.IndexSizeError c.
Proof.
  intros H. unfold drawGradient.
  unfold Canvas.bind at 1. unfold Canvas.getWidth at 1.
  unfold Canvas.bind at 1. unfold Canvas.getHeight at 1.
  unfold Canvas.bind at 1. now rewrite (buildGradient_throw _ _ _ H).
Qed.

Lemma drawText_run quote c :
  Canvas.fillStyle (Canvas.ctx c)
  = Canvas.Linear (overlayGradient quote (Canvas.height c)) ->
  drawText toUpperCase textWidth cssColor settings quote c
  = Canvas.Done tt
      (paintOn c (captionContext (layoutContext settings quote (Canvas.height c)))
         (textOps toUpperCase textWidth cssColor settings quote (Canvas.width c) (Canvas.height c))).
Proof.
  intros Hf. unfold drawText.
  unfold Canvas.bind at 1. unfold Canvas.getWidth at 1.
  unfold Canvas.bind at 1. unfold Canvas.getHeight at 1.
  unfold Canvas.bind at 1. unfold Canvas.setFont at 1, Canvas.withCtx at 1.
  unfold Canvas.bind at 1. unfold Canvas.setTextAlign at 1, Canvas.withCtx at 1.
  unfold Canvas.bind at 1. unfold Canvas.setTextBaseline at 1, Canvas.withCtx at 1.
  unfold Canvas.bind at 1. unfold Canvas.getFont at 1.
  cbn [Canvas.has2d Canvas.width Canvas.height Canvas.ctx Canvas.bitmap
       Canvas.font Canvas.fillStyle Canvas.textAlign Canvas.textBaseline].
  rewrite Hf.
  fold (layoutContext settings quote (Canvas.height c)).
  fold (quoteLines toUpperCase textWidth settings quote).
  unfold Canvas.bind at 1. rewrite drawOpeningQuote_run.
  unfold Canvas.bind at 1. unfold Canvas.setFont at 1, Canvas.withCtx at 1.
  unfold Canvas.bind at 1. unfold Canvas.setTextAlign at 1, Canvas.withCtx at 1.
  unfold Canvas.bind at 1. unfold Canvas.forEach. rewrite drawLines_run.
  rewrite drawArtistName_run.
  unfold textOps, bodyContext, paintOn.
  cbn [Canvas.has2d Canvas.width Canvas.height Canvas.ctx Canvas.bitmap
       Canvas.font Canvas.fillStyle Canvas.textAlign Canvas.textBaseline].
  assert (B : Canvas.textBaseline
                (afterQuoteMark settings quote
                   (layoutContext settings quote (Canvas.height c))
                   (quoteLines toUpperCase textWidth settings quote))
              = Canvas.middle)
    by (destruct (quoteLines toUpperCase textWidth settings quote); reflexivity).
  rewrite !B, <- !app_assoc.
  f_equal. f_equal. unfold captionContext. f_equal.
  now rewrite linesContext_baseline.
Qed.

Lemma validOffsetb_true g : validOffsetb g = true <-> validOffset g.
Proof.
  unfold validOffsetb, validOffset.
  now rewrite andb_true_iff, !Qle_bool_iff.
Qed.

Lemma validOffsetb_false g : validOffsetb g = false <-> ~ validOffset g.
Proof.
  rewrite <- validOffsetb_true. destruct (validOffsetb g); split; congruence.
Qed.

Lemma drawQuoteOnCanvas_no_context quote c :
  Canvas.has2d c = false ->
  drawQuoteOnCanvas toUpperCase textWidth cssColor settings quote c = Canvas.Done tt c.
Proof. intros H. unfold drawQuoteOnCanvas. now rewrite H. Qed.

Lemma drawQuoteOnCanvas_run quote c :
  Canvas.has2d c = true ->
  validOffset (gradientStartPosition quote) ->
  drawQuoteOnCanvas toUpperCase textWidth cssColor settings quote c
  = Canvas.Done tt (rendered toUpperCase textWidth cssColor settings quote).
Proof.
  intros Hc Hg. unfold drawQuoteOnCanvas. rewrite Hc. cbn [negb].
  unfold Canvas.bind at 1. unfold Canvas.setWidth at 1.
  unfold Canvas.bind at 1. unfold Canvas.setHeight at 1.
  unfold Canvas.bind at 1. rewrite drawBackground_run.
  unfold Canvas.bind at 1. rewrite (drawGradient_run _ _ Hg).
  rewrite drawText_run by reflexivity.
  unfold rendered, displayList, paintOn.
  cbn [Canvas.has2d Canvas.width Canvas.height Canvas.ctx Canvas.bitmap
       Canvas.font Canvas.fillStyle Canvas.textAlign Canvas.textBaseline app].
  now rewrite Hc.
Qed.

Lemma drawQuoteOnCanvas_throw quote c :
  Canvas.has2d c = true ->
  ~ validOffset (gradientStartPosition quote) ->
  drawQuoteOnCanvas toUpperCase textWidth cssColor settings quote c
  = Canvas.Throw Canvas.IndexSizeError (interrupted quote).
Proof.
  intros Hc Hg. unfold drawQuoteOnCanvas. rewrite Hc. cbn [negb].
  unfold Canvas.bind at 1. unfold Canvas.setWidth at 1.
  unfold Canvas.bind at 1. unfold Canvas.setHeight at 1.
  unfold Canvas.bind at 1. rewrite drawBackground_run.
  unfold Canvas.bind at 1. rewrite (drawGradient_throw _ _ Hg).
  unfold interrupted, paintOn.
  cbn [Canvas.has2d Canvas.width Canvas.height Canvas.ctx Canvas.bitmap app].
  now rewrite Hc.
Qed.

Lemma drawQuoteOnCanvas_outcome quote c :
  Canvas.has2d c = true ->
  drawQuoteOnCanvas toUpperCase textWidth cssColor settings quote c
  = outcomeOf toUpperCase textWidth cssColor settings quote.
Proof.
  intros Hc. unfold outcomeOf.
  destruct (validOffsetb (gradientStartPosition quote)) eqn:Hg.
  - apply validOffsetb_true in Hg. now apply drawQuoteOnCanvas_run.
  - apply validOffsetb_false in Hg. now apply drawQuoteOnCanvas_throw.
Qed.

Lemma outcomeOf_has2d quote :
  Canvas.has2d (Canvas.canvasOf (outcomeOf toUpperCase textWidth cssColor settings quote)) = true.
Proof. unfold outcomeOf. now destruct (validOffsetb _). Qed.

End Run.

(** ** The operations of the lines *)

Section Placement.

Variable toUpperCase : jsstring -> jsstring.
Variable textWidth : Canvas.Font -> jsstring -> Q.
Variable cssColor : string -> bool.
Variable settings : Settings.t.

Implicit Types (quote : Quote.t) (k : Canvas.Context).
Implicit Types (line : jsstring) (lines words : list jsstring).

Lemma wordOps_text quote y words : forall k lineX,
  List.map opText (wordOps toUpperCase textWidth cssColor settings quote k y lineX words)
  = List.map Some words.
Proof.
  induction words as [|w words IH]; intros k lineX; simpl; [reflexivity|].
  now rewrite IH.
Qed.


Lemma linesOps_text quote centerX startY lines : forall k lineIndex,
  List.map opText
    (linesOps toUpperCase textWidth cssColor settings quote k centerX startY lineIndex lines)
  = List.map Some (flat_map lineWords lines).
Proof.
  induction lines as [|l lines IH]; intros k lineIndex; simpl; [reflexivity|].
  rewrite !map_app, IH. unfold lineOps. now rewrite wordOps_text.
Qed.


(** The fill style of a word: the highlight colour when the decision is
    positive and the canvas takes the colour, white otherwise. *)
Let highlight : Canvas.FillStyle :=
  Canvas.Solid (Canvas.css (Settings.highlightColor settings)).

Let wordFill quote lineWord : Canvas.FillStyle :=
  if shouldHighlight toUpperCase quote lineWord && Canvas.parses cssColor highlight
  then highlight else Canvas.Solid white.

(** What the word loop keeps: the highlight colour is one the canvas takes,
    or the current fill style is white. *)
Let steady k : Prop :=
  Canvas.parses cssColor highlight = true \/ Canvas.fillStyle k = Canvas.Solid white.

Lemma wordContext_fill quote k lineWord :
  steady k ->
  Canvas.fillStyle (wordContext toUpperCase cssColor settings quote k lineWord)
  = wordFill quote lineWord.
Proof.
  intros H. unfold wordContext, wordFill, Canvas.assigned. cbn [Canvas.fillStyle].
  destruct (shouldHighlight toUpperCase quote lineWord); cbn [andb].
  - fold highlight. destruct (Canvas.parses cssColor highlight) eqn:E; [reflexivity|].
    destruct H as [H|H]; [congruence | exact H].
  - reflexivity.
Qed.

Lemma wordContext_steady quote k lineWord :
  steady k -> steady (wordContext toUpperCase cssColor settings quote k lineWord).
Proof.
  intros H. unfold steady. rewrite (wordContext_fill quote k lineWord H).
  unfold wordFill. destruct (Canvas.parses cssColor highlight); [now left|].
  right. now rewrite andb_false_r.
Qed.

Lemma wordsContext_steady quote words : forall k,
  steady k -> steady (wordsContext toUpperCase cssColor settings quote k words).
Proof.
  unfold wordsContext. induction words as [|w words IH]; intros k H; simpl; [exact H|].
  apply IH. now apply wordContext_steady.
Qed.

Lemma wordOps_fill quote y words : forall k lineX,
  steady k ->
  Forall (fun op => forall lineWord, opText op = Some lineWord ->
                    opFill op = Some (wordFill quote lineWord))
    (wordOps toUpperCase textWidth cssColor settings quote k y lineX words).
Proof.
  induction words as [|w words IH]; intros k lineX H; simpl; constructor.
  - intros lineWord E. injection E as <-. cbn [opFill].
    now rewrite (wordContext_fill quote k w H).
  - apply IH. now apply wordContext_steady.
Qed.

Lemma linesOps_fill quote centerX startY lines : forall k lineIndex,
  steady k ->
  Forall (fun op => forall lineWord, opText op = Some lineWord ->
                    opFill op = Some (wordFill quote lineWord))
    (linesOps toUpperCase textWidth cssColor settings quote k centerX startY lineIndex lines).
Proof.
  induction lines as [|l lines IH]; intros k lineIndex H; simpl; [constructor|].
  apply Forall_app. split.
  - unfold lineOps. now apply wordOps_fill.
  - apply IH. now apply wordsContext_steady.
Qed.

Lemma bodyContext_steady quote canvasHeight :
  steady (bodyContext toUpperCase textWidth settings quote canvasHeight).
Proof.
  right. unfold bodyContext, quoteLines. cbn [Canvas.fillStyle].
  destruct (layoutLines toUpperCase (textWidth (bodyFont settings quote))
              (Quote.text quote)) as [|first rest] eqn:E.
  - now destruct (layoutLines_not_nil toUpperCase
                    (textWidth (bodyFont settings quote)) (Quote.text quote)).
  - reflexivity.
Qed.

(** The display list: background, overlay, quotation mark, the words of the
    lines, caption. *)
Lemma displayList_parts quote :
  exists mark caption,
    displayList toUpperCase textWidth cssColor settings quote
    = [backgroundOp quote 1080 1350; overlayOp quote 1080 1350; mark]
      ++ linesOps toUpperCase textWidth cssColor settings quote
           (bodyContext toUpperCase textWidth settings quote 1350) (1080 / 2)
           (startY settings quote (quoteLines toUpperCase textWidth settings quote) 1350)
           0 (quoteLines toUpperCase textWidth settings quote)
      ++ [caption]
    /\ mark
       = Canvas.FillText openingQuote
           (1080 / 2
            - textWidth (bodyFont settings quote)
                (hd [] (quoteLines toUpperCase textWidth settings quote)) / 2
            - 16 - textWidth (quoteMarkFont settings quote) openingQuote)
           (startY settings quote (quoteLines toUpperCase textWidth settings quote) 1350)
           (quoteMarkContext settings quote (layoutContext settings quote 1350))
    /\ caption
       = captionOp toUpperCase settings (1080 / 2) 1350
           (linesContext toUpperCase cssColor settings quote
              (bodyContext toUpperCase textWidth settings quote 1350)
              (quoteLines toUpperCase textWidth settings quote)).
Proof.
  unfold displayList, textOps.
  destruct (quoteLines toUpperCase textWidth settings quote) as [|first rest] eqn:E.
  - unfold quoteLines in E.
    now destruct (layoutLines_not_nil toUpperCase
                    (textWidth (bodyFont settings quote)) (Quote.text quote)).
  - eexists. eexists. split; [|split]; reflexivity.
Qed.

End Placement.

(** * The claims *)

(** ** Text layout *)



(** C2. Round trip of words. The words of the wrapped lines, each line
    split on white-space runs with empty pieces discarded, taken in line
    order, are the white-space-delimited words of the uppercased text: none
    is dropped, duplicated, reordered or cut across two lines. When the
    uppercased text has no white space other than the space character these
    are the non-empty pieces of its split on single spaces. *)
Theorem words_round_trip :
  forall (toUpperCase : jsstring -> jsstring) (width : jsstring -> Q) (text : jsstring),
    flat_map lineWords (layoutLines toUpperCase width text)
    = lineWords (toUpperCase text)
    /\ (onlySpaceWs (toUpperCase text) ->
        flat_map lineWords (layoutLines toUpperCase width text)
        = filter nonEmpty (split SPACE (toUpperCase text))).
Proof.
  intros toUpperCase width text.
  pose proof (layoutLines_words toUpperCase width text) as E.
  split; [exact E|].
  intros H. rewrite E. now apply lineWords_onlySpace.
Qed.

Lemma words_round_trip_witness :
  onlySpaceWs (Sample.toUpperCase (lit "the only  way out"))
  /\ flat_map lineWords
       (layoutLines Sample.toUpperCase
          (Sample.monospace 100 (Canvas.font Canvas.defaultContext))
          (lit "the only  way out"))
     = [lit "THE"; lit "ONLY"; lit "WAY"; lit "OUT"].
Proof.
  assert (H : onlySpaceWs (Sample.toUpperCase (lit "the only  way out"))).
  { unfold onlySpaceWs.
    repeat (constructor; [vm_compute; first [discriminate | reflexivity] |]).
    constructor. }
  split; [exact H|].
  refine (eq_trans
            (proj2 (words_round_trip Sample.toUpperCase
                      (Sample.monospace 100 (Canvas.font Canvas.defaultContext))
                      (lit "the only  way out")) H) _).
  reflexivity.
Defined.

(** A line break inside the text separates two rendered words but not two
    pieces of the split on single spaces. *)
Lemma words_round_trip_line_break :
  flat_map lineWords
    (layoutLines Sample.toUpperCase
       (Sample.monospace 30 (Canvas.font Canvas.defaultContext))
       (lit "a" ++ [Sample.LF] ++ lit "b"))
  <> filter nonEmpty
       (split SPACE (Sample.toUpperCase (lit "a" ++ [Sample.LF] ++ lit "b"))).
Proof. vm_compute. discriminate. Qed.

(** ** Word highlighting *)

Section Highlight.

Variable toUpperCase : jsstring -> jsstring.

Lemma trimStart_snoc s c :
  isWhiteSpace c = false -> trimStart (s ++ [c]) = trimStart s ++ [c].
Proof.
  intros H. induction s as [|x s IH]; simpl.
  - now rewrite H.
  - destruct (isWhiteSpace x); [exact IH | reflexivity].
Qed.

Lemma trimEnd_idempotent s : trimEnd (trimEnd s) = trimEnd s.
Proof.
  unfold trimEnd. now rewrite rev_involutive, trimStart_idempotent.
Qed.

Lemma trimStart_trimEnd s : trimStart s = s -> trimStart (trimEnd s) = trimEnd s.
Proof.
  destruct s as [|c s]; [reflexivity|]. simpl.
  destruct (isWhiteSpace c) eqn:E.
  - intros H. exfalso.
    destruct (trimStart_decomp s) as (k & Ek & _).
    apply (f_equal (@List.length N)) in H. rewrite Ek in H at 2.
    simpl in H. rewrite length_app in H. lia.
  - intros _. unfold trimEnd. cbn [rev].
    rewrite (trimStart_snoc _ c E), rev_app_distr. simpl. now rewrite E.
Qed.

Lemma trim_idempotent s : trim (trim s) = trim s.
Proof.
  unfold trim.
  rewrite (trimStart_trimEnd (trimStart s) (trimStart_idempotent s)).
  apply trimEnd_idempotent.
Qed.

Lemma normalizeWord_nil : normalizeWord toUpperCase [] = [].
Proof. reflexivity. Qed.

Lemma normalizeWord_normalize word :
  toUpperCase [] = [] -> normalizeWord toUpperCase word = normalize toUpperCase word.
Proof.
  intros U. unfold normalizeWord, normalize.
  destruct word; [symmetry; exact U | reflexivity].
Qed.

Lemma normalizeWord_blank s :
  toUpperCase [] = [] -> trim s = [] -> normalizeWord toUpperCase s = [].
Proof.
  intros U H. unfold normalizeWord. rewrite H. simpl. rewrite U.
  now destruct (nonEmpty s).
Qed.

Lemma normalizedHighlightedWord_normalizeWord quote :
  toUpperCase [] = [] ->
  normalizedHighlightedWord toUpperCase quote
  = normalizeWord toUpperCase (Quote.highlightedWord quote).
Proof.
  intros U. unfold normalizedHighlightedWord.
  destruct (Quote.highlightedWord quote) as [|c s] eqn:E; [reflexivity|].
  cbn [nonEmpty].
  destruct (trim (c :: s)) as [|d t] eqn:Et.
  - now rewrite (normalizeWord_blank (c :: s) U Et).
  - unfold normalizeWord. cbn [nonEmpty negb]. rewrite <- Et.
    now rewrite trim_idempotent.
Qed.

Lemma shouldHighlight_spec quote lineWord :
  toUpperCase [] = [] ->
  shouldHighlight toUpperCase quote lineWord = true
  <-> isHighlighted toUpperCase lineWord (Quote.highlightedWord quote).
Proof.
  intros U. unfold shouldHighlight, isHighlighted.
  rewrite (normalizedHighlightedWord_normalizeWord quote U).
  rewrite <- !(normalizeWord_normalize _ U).
  rewrite !andb_true_iff, eqb_eq, nonEmpty_true.
  generalize (normalizeWord toUpperCase lineWord) as a.
  generalize (normalizeWord toUpperCase (Quote.highlightedWord quote)) as b.
  intros b a. split.
  - intros [[[Hb _] Ha] E]. repeat split; auto.
    destruct a; [discriminate Ha | discriminate].
  - intros (Ha & Hb & E). repeat split; auto.
    + destruct b; [congruence | reflexivity].
    + destruct a; [congruence | reflexivity].
Qed.

Lemma normalizeWord_basicLatin word :
  basicLatinUpper toUpperCase ->
  normalizeWord toUpperCase word = List.map upcase (stripNonWord (trim word)).
Proof.
  intros U. unfold normalizeWord. destruct word as [|c s]; [reflexivity|].
  cbn [nonEmpty negb]. apply U. unfold stripNonWord.
  apply Forall_forall. intros x Hx. now apply filter_In in Hx.
Qed.

End Highlight.

(** C3. Highlight decision. The decision of the renderer for a word is
    positive if and only if the word and the configured [highlightedWord],
    both normalized, are non-empty and equal; an empty or white-space-only
    [highlightedWord] highlights no word. In a completed render the
    white-space-delimited words of the uppercased text are painted, between
    the quotation mark and the caption, each with the highlight colour when
    its decision is positive and the canvas takes the configured highlight
    colour as a CSS colour, and with white otherwise: a highlight colour
    that the canvas does not parse is ignored by [ctx.fillStyle]. *)
Theorem highlight_decision :
  forall (toUpperCase : jsstring -> jsstring)
         (textWidth : Canvas.Font -> jsstring -> Q)
         (cssColor : string -> bool)
         (settings : Settings.t) (quote : Quote.t),
    toUpperCase [] = [] ->
    (forall lineWord,
        shouldHighlight toUpperCase quote lineWord = true
        <-> isHighlighted toUpperCase lineWord (Quote.highlightedWord quote))
    /\ (trim (Quote.highlightedWord quote) = [] ->
        forall lineWord, shouldHighlight toUpperCase quote lineWord = false)
    /\ (forall c,
          Canvas.has2d c = true ->
          validOffset (gradientStartPosition quote) ->
          exists background overlay mark words caption,
            Canvas.bitmap
              (Canvas.canvasOf
                 (drawQuoteOnCanvas toUpperCase textWidth cssColor settings quote c))
            = [background; overlay; mark] ++ words ++ [caption]
            /\ List.map opText words
               = List.map Some (whitespaceTokens (toUpperCase (Quote.text quote)))
            /\ Forall
                 (fun op =>
                    forall lineWord,
                      opText op = Some lineWord ->
                      opFill op
                      = Some
                          (if shouldHighlight toUpperCase quote lineWord
                              && (Canvas.hexColor (Settings.highlightColor settings)
                                  || cssColor (Settings.highlightColor settings))
                           then Canvas.Solid
                                  (Canvas.css (Settings.highlightColor settings))
                           else Canvas.Solid (Canvas.css "#ffffff")))
                 words).
Proof.
  intros toUpperCase textWidth cssColor settings quote U. split; [|split].
  - intros lineWord. now apply shouldHighlight_spec.
  - intros Hb lineWord.
    destruct (shouldHighlight toUpperCase quote lineWord) eqn:E; [|reflexivity].
    apply (shouldHighlight_spec toUpperCase quote lineWord U) in E.
    destruct E as (_ & E & _). exfalso. apply E.
    rewrite <- (normalizeWord_normalize toUpperCase _ U).
    now apply normalizeWord_blank.
  - intros c Hc Hg. rewrite (drawQuoteOnCanvas_run _ _ _ _ _ c Hc Hg).
    cbn [Canvas.canvasOf rendered Canvas.bitmap].
    destruct (displayList_parts toUpperCase textWidth cssColor settings quote)
      as (mark & caption & E & _).
    exists (backgroundOp quote 1080 1350), (overlayOp quote 1080 1350), mark.
    eexists. exists caption. split; [exact E|]. split.
    + rewrite linesOps_text. unfold quoteLines.
      now rewrite layoutLines_words, lineWords_tokens.
    + apply linesOps_fill. apply bodyContext_steady.
Qed.

Lemma highlight_decision_witness :
  shouldHighlight Sample.toUpperCase
    (Sample.quote (lit "the only way out is through.") (lit "Through") bottom)
    (lit "THROUGH.") = true
  /\ shouldHighlight Sample.toUpperCase
       (Sample.quote (lit "the only way out is through.") (lit "Through") bottom)
       (lit "OUT") = false
  /\ exists background overlay mark words caption,
       Canvas.bitmap
         (Canvas.canvasOf
            (drawQuoteOnCanvas Sample.toUpperCase (Sample.monospace 30) Sample.cssColor
               Sample.settings
               (Sample.quote (lit "the only way out is through.") (lit "Through") bottom)
               Sample.blank))
       = [background; overlay; mark] ++ words ++ [caption]
       /\ List.map opText words
          = [Some (lit "THE"); Some (lit "ONLY"); Some (lit "WAY"); Some (lit "OUT");
             Some (lit "IS"); Some (lit "THROUGH.")]
       /\ List.map opFill words
          = [Some (Canvas.Solid white); Some (Canvas.Solid white);
             Some (Canvas.Solid white); Some (Canvas.Solid white);
             Some (Canvas.Solid white);
             Some (Canvas.Solid (Canvas.css "#FF8C00"))].
Proof.
  assert (V : validOffset
                (gradientStartPosition
                   (Sample.quote (lit "the only way out is through.") (lit "Through")
                      bottom)))
    by (split; discriminate).
  destruct (highlight_decision Sample.toUpperCase (Sample.monospace 30) Sample.cssColor
              Sample.settings
              (Sample.quote (lit "the only way out is through.") (lit "Through") bottom)
              (eq_refl : Sample.toUpperCase [] = [])) as (D & _ & R).
  split; [|split].
  - apply D. unfold isHighlighted. vm_compute. repeat split; discriminate.
  - destruct (shouldHighlight _ _ (lit "OUT")) eqn:E; [|reflexivity].
    apply D in E. destruct E as (_ & _ & E). vm_compute in E. discriminate.
  - destruct (R Sample.blank eq_refl V)
      as (background & overlay & mark & words & caption & E & T & F).
    exists background, overlay, mark, words, caption.
    split; [exact E|]. split; [exact T|].
    destruct words as [|w1 [|w2 [|w3 [|w4 [|w5 [|w6 [|w7 rest]]]]]]];
      try discriminate T.
    repeat match goal with
           | H : Forall _ (_ :: _) |- _ => inversion H; subst; clear H
           end.
    cbn [List.map] in T. injection T as T1 T2 T3 T4 T5 T6.
    cbn [List.map].
    repeat match goal with
           | H : forall lineWord, opText ?w = Some lineWord -> _,
             E : opText ?w = Some _ |- _ => rewrite (H _ E); clear H
           end.
    reflexivity.
Defined.

(** With the highlight colour ['#FF8C0'], which is not a CSS colour, the
    word that matches the highlighted word is painted white. *)
Lemma highlight_decision_unparsed_colour :
  isHighlighted Sample.toUpperCase (lit "THROUGH") (lit "through")
  /\ exists x y attrs,
       nth_error
         (Canvas.bitmap
            (Canvas.canvasOf
               (drawQuoteOnCanvas Sample.toUpperCase (Sample.monospace 30)
                  Sample.cssColor (Sample.settingsWith "#FF8C0")
                  (Sample.quote (lit "out is through") (lit "through") bottom)
                  Sample.blank))) 5
       = Some (Canvas.FillText (lit "THROUGH") x y attrs)
       /\ Canvas.fillStyle attrs = Canvas.Solid (Canvas.css "#ffffff")
       /\ Canvas.fillStyle attrs <> Canvas.Solid (Canvas.css "#FF8C0").
Proof.
  split.
  - unfold isHighlighted. vm_compute. repeat split; discriminate.
  - do 3 eexists. split; [vm_compute; reflexivity|].
    split; [reflexivity | discriminate].
Qed.

(** C4. Normalization law. When [toUpperCase] maps [a-z] to [A-Z] on word
    characters, [normalizeWord] is: trim, keep the letters, digits and
    underscores, map to upper case; it sends "Don't", "dont" and "DON'T,"
    to the same string. *)
Theorem normalize_law :
  forall (toUpperCase : jsstring -> jsstring),
    basicLatinUpper toUpperCase ->
    (forall word,
        normalizeWord toUpperCase word = normalize toUpperCase word
        /\ normalizeWord toUpperCase word = List.map upcase (stripNonWord (trim word)))
    /\ normalizeWord toUpperCase (lit "Don't") = normalizeWord toUpperCase (lit "dont")
    /\ normalizeWord toUpperCase (lit "dont") = normalizeWord toUpperCase (lit "DON'T,")
    /\ normalizeWord toUpperCase (lit "DON'T,") = lit "DONT".
Proof.
  intros toUpperCase U. split.
  - intros word. split; [|now apply normalizeWord_basicLatin].
    apply normalizeWord_normalize. now apply (U []).
  - rewrite !(normalizeWord_basicLatin toUpperCase _ U).
    repeat split; reflexivity.
Qed.

Lemma normalize_law_witness :
  basicLatinUpper Sample.toUpperCase
  /\ normalizeWord Sample.toUpperCase (lit "Don't") = lit "DONT".
Proof.
  assert (U : basicLatinUpper Sample.toUpperCase) by (intros s _; reflexivity).
  split; [exact U|].
  destruct (normalize_law Sample.toUpperCase U) as (_ & E1 & E2 & E3).
  exact (eq_trans E1 (eq_trans E2 E3)).
Defined.

(** ** The centre-crop fallback *)

Section Crop.

Variable img : Canvas.Image.
Hypothesis width_positive : (0 < Canvas.imageWidth img)%Z.
Hypothesis height_positive : (0 < Canvas.imageHeight img)%Z.

Let imgAspect : Q :=
  inject_Z (Canvas.imageWidth img) / inject_Z (Canvas.imageHeight img).

Lemma imgAspect_positive : 0 < imgAspect.
Proof.
  unfold imgAspect. apply Qlt_shift_div_l.
  - change 0 with (inject_Z 0). now rewrite <- Zlt_Qlt.
  - rewrite Qmult_0_l. change 0 with (inject_Z 0). now rewrite <- Zlt_Qlt.
Qed.

Lemma fit_wide :
  Qgtb imgAspect (1080 / 1350) = true ->
  fitToCanvas imgAspect 1080 1350
  = {| drawWidth := 1350 * imgAspect; drawHeight := 1350;
       offsetX := (1080 - 1350 * imgAspect) / 2; offsetY := 0 |}.
Proof. intros H. unfold fitToCanvas. now rewrite H. Qed.

Lemma fit_tall :
  Qgtb imgAspect (1080 / 1350) = false ->
  fitToCanvas imgAspect 1080 1350
  = {| drawWidth := 1080; drawHeight := 1080 / imgAspect;
       offsetX := 0; offsetY := (1350 - 1080 / imgAspect) / 2 |}.
Proof. intros H. unfold fitToCanvas. now rewrite H. Qed.

Lemma wide_covers : Qgtb imgAspect (1080 / 1350) = true -> 1080 <= 1350 * imgAspect.
Proof.
  intros H. apply Qgtb_true in H. clearbody imgAspect.
  assert (E : 1080 / 1350 == 4 # 5) by reflexivity. rewrite E in H. lra.
Qed.

Lemma tall_covers : Qgtb imgAspect (1080 / 1350) = false -> 1350 <= 1080 / imgAspect.
Proof.
  intros H. apply Qle_shift_div_l; [exact imgAspect_positive|].
  assert (L : imgAspect <= 1080 / 1350).
  { unfold Qgtb in H. apply negb_false_iff in H. now apply Qle_bool_iff. }
  clearbody imgAspect.
  assert (E : 1080 / 1350 == 4 # 5) by reflexivity. rewrite E in L. lra.
Qed.

Lemma fit_covers :
  1080 <= drawWidth (fitToCanvas imgAspect 1080 1350)
  /\ 1350 <= drawHeight (fitToCanvas imgAspect 1080 1350).
Proof.
  destruct (Qgtb imgAspect (1080 / 1350)) eqn:E.
  - rewrite (fit_wide E). simpl. split; [now apply wide_covers | apply Qle_refl].
  - rewrite (fit_tall E). simpl. split; [apply Qle_refl | now apply tall_covers].
Qed.

Lemma fit_offsets :
  offsetX (fitToCanvas imgAspect 1080 1350) <= 0
  /\ offsetY (fitToCanvas imgAspect 1080 1350) <= 0
  /\ offsetX (fitToCanvas imgAspect 1080 1350)
     == (1080 - drawWidth (fitToCanvas imgAspect 1080 1350)) / 2
  /\ offsetY (fitToCanvas imgAspect 1080 1350)
     == (1350 - drawHeight (fitToCanvas imgAspect 1080 1350)) / 2.
Proof.
  destruct (Qgtb imgAspect (1080 / 1350)) eqn:E.
  - rewrite (fit_wide E). simpl. pose proof (wide_covers E) as H.
    clearbody imgAspect. unfold Qdiv. change (/ 2) with (1 # 2).
    repeat split; lra.
  - rewrite (fit_tall E). simpl. pose proof (tall_covers E) as H.
    revert H. generalize (1080 / imgAspect). intros d H.
    unfold Qdiv. change (/ 2) with (1 # 2). repeat split; lra.
Qed.

Lemma ensureWidth_idle :
  ensureWidth imgAspect 1080 1350 (fitToCanvas imgAspect 1080 1350)
  = fitToCanvas imgAspect 1080 1350.
Proof.
  unfold ensureWidth. destruct fit_covers as [H _].
  apply Qltb_false in H. now rewrite H.
Qed.

Lemma ensureHeight_idle :
  ensureHeight imgAspect 1080 1350 (fitToCanvas imgAspect 1080 1350)
  = fitToCanvas imgAspect 1080 1350.
Proof.
  unfold ensureHeight. destruct fit_covers as [_ H].
  apply Qltb_false in H. now rewrite H.
Qed.

Lemma centerCrop_fit : centerCrop img 1080 1350 = fitToCanvas imgAspect 1080 1350.
Proof.
  unfold centerCrop. fold imgAspect. now rewrite ensureWidth_idle, ensureHeight_idle.
Qed.

(** The image is scaled by the same factor in both directions. *)
Lemma fit_scale :
  drawWidth (fitToCanvas imgAspect 1080 1350) * inject_Z (Canvas.imageHeight img)
  == drawHeight (fitToCanvas imgAspect 1080 1350) * inject_Z (Canvas.imageWidth img).
Proof.
  assert (W : 0 < inject_Z (Canvas.imageWidth img))
    by (change 0 with (inject_Z 0); now rewrite <- Zlt_Qlt).
  assert (H : 0 < inject_Z (Canvas.imageHeight img))
    by (change 0 with (inject_Z 0); now rewrite <- Zlt_Qlt).
  destruct (Qgtb imgAspect (1080 / 1350)) eqn:E.
  - rewrite (fit_wide E). simpl. unfold imgAspect. field. lra.
  - rewrite (fit_tall E). simpl. unfold imgAspect. field. split; lra.
Qed.

End Crop.

(** One axis of the crop: an image side of length [side] is scaled to
    [drawn], at least the canvas side [canvas], and shifted by [offset],
    half of the difference. In source coordinates the part seen starts at a
    non-negative inset, lies within the image, and is centred. *)
Lemma centred_axis (side drawn offset canvas : Q) :
  0 < side -> 0 < canvas -> canvas <= drawn -> offset == (canvas - drawn) / 2 ->
  let scale := drawn / side in
  0 <= (0 - offset) / scale
  /\ (0 - offset) / scale + canvas / scale <= side
  /\ 0 < canvas / scale
  /\ (0 - offset) / scale == (side - canvas / scale) / 2.
Proof.
  intros Hs Hc Hd Ho scale.
  assert (Hdrawn : 0 < drawn) by lra.
  assert (Hscale : 0 < scale).
  { unfold scale. apply Qlt_shift_div_l; [exact Hs|]. lra. }
  assert (Es : side * scale == drawn) by (unfold scale; field; lra).
  assert (Ho' : offset == (canvas - drawn) * (1 # 2))
    by (rewrite Ho; unfold Qdiv; reflexivity).
  split; [|split; [|split]].
  - apply Qle_shift_div_l; [exact Hscale|]. lra.
  - assert (E : (0 - offset) / scale + canvas / scale == (0 - offset + canvas) / scale)
      by (field; lra).
    rewrite E. apply Qle_shift_div_r; [exact Hscale|]. rewrite Es. lra.
  - apply Qlt_shift_div_l; [exact Hscale|]. lra.
  - rewrite Ho. unfold scale. field. split; lra.
Qed.

(** In binary64 the quotient 1080 / 1350 rounds above 4/5 and
    1080 / (1080 / 1350) rounds back to 1350: at the aspect ratio of the
    canvas, and next to it, the guards stay idle as they do on rationals. *)
Example binary64_guards_idle :
  forallb (fun d => Binary64.guardsIdle (fst d) (snd d)) Binary64.samples = true.
Proof. vm_compute. reflexivity. Qed.

(** C7. Cover crop. For an image with positive width and height and no
    crop rectangle, the background is the image scaled, by one factor in
    both directions, to a rectangle at least as wide as the canvas (1080)
    and at least as high (1350). The part of the image seen on the canvas,
    in source-image coordinates, is centred: its offsets from the left and
    from the top of the image are half of what the image exceeds it by,
    they are not negative, and the part seen lies within the image. On the
    canvas this is drawn by shifting the scaled image to the left and up by
    half of the excess of the scaled image over the canvas, which is not
    negative either. *)
Theorem cover_crop :
  forall (quote : Quote.t) (c : Canvas.t),
    (0 < Canvas.imageWidth (Quote.image quote))%Z ->
    (0 < Canvas.imageHeight (Quote.image quote))%Z ->
    Quote.cropData quote = None ->
    Canvas.width c = 1080 -> Canvas.height c = 1350 ->
    let imageWidth := inject_Z (Canvas.imageWidth (Quote.image quote)) in
    let imageHeight := inject_Z (Canvas.imageHeight (Quote.image quote)) in
    let r := centerCrop (Quote.image quote) 1080 1350 in
    let crop := sourceCrop (Quote.image quote) r 1080 1350 in
    drawBackground quote c
    = Canvas.Done tt
        (paintOn c (Canvas.ctx c)
           [Canvas.DrawImage (Quote.image quote)
              (offsetX r) (offsetY r) (drawWidth r) (drawHeight r)])
    /\ 1080 <= drawWidth r /\ 1350 <= drawHeight r
    /\ drawWidth r * imageHeight == drawHeight r * imageWidth
    /\ 0 <= CropData.x crop /\ 0 <= CropData.y crop
    /\ CropData.x crop == (imageWidth - CropData.width crop) / 2
    /\ CropData.y crop == (imageHeight - CropData.height crop) / 2
    /\ 0 < CropData.width crop /\ 0 < CropData.height crop
    /\ CropData.x crop + CropData.width crop <= imageWidth
    /\ CropData.y crop + CropData.height crop <= imageHeight
    /\ 0 <= (drawWidth r - 1080) / 2 /\ 0 <= (drawHeight r - 1350) / 2
    /\ offsetX r == 0 - (drawWidth r - 1080) / 2
    /\ offsetY r == 0 - (drawHeight r - 1350) / 2.
Proof.
  intros quote c Hw Hh Hn Ew Eh imageWidth imageHeight r crop. split.
  - rewrite drawBackground_run. unfold backgroundOp. now rewrite Hn, Ew, Eh.
  - subst crop r. rewrite (centerCrop_fit _ Hw Hh).
    destruct (fit_covers _ Hw Hh) as [A B].
    destruct (fit_offsets _ Hw Hh) as (_ & _ & E & F).
    pose proof (fit_scale _ Hw Hh) as S.
    assert (W : 0 < imageWidth)
      by (unfold imageWidth; change 0 with (inject_Z 0); now rewrite <- Zlt_Qlt).
    assert (H : 0 < imageHeight)
      by (unfold imageHeight; change 0 with (inject_Z 0); now rewrite <- Zlt_Qlt).
    destruct (centred_axis imageWidth _ _ 1080 W eq_refl A E) as (X1 & X2 & X3 & X4).
    destruct (centred_axis imageHeight _ _ 1350 H eq_refl B F) as (Y1 & Y2 & Y3 & Y4).
    unfold sourceCrop. cbn [CropData.x CropData.y CropData.width CropData.height].
    subst imageWidth imageHeight.
    split; [exact A|]. split; [exact B|]. split; [exact S|].
    split; [exact X1|]. split; [exact Y1|]. split; [exact X4|]. split; [exact Y4|].
    split; [exact X3|]. split; [exact Y3|]. split; [exact X2|]. split; [exact Y2|].
    split.
    { revert A. generalize (drawWidth (fitToCanvas
        (inject_Z (Canvas.imageWidth (Quote.image quote))
         / inject_Z (Canvas.imageHeight (Quote.image quote))) 1080 1350)).
      intros d A. unfold Qdiv. change (/ 2) with (1 # 2). lra. }
    split.
    { revert B. generalize (drawHeight (fitToCanvas
        (inject_Z (Canvas.imageWidth (Quote.image quote))
         / inject_Z (Canvas.imageHeight (Quote.image quote))) 1080 1350)).
      intros d B. unfold Qdiv. change (/ 2) with (1 # 2). lra. }
    split.
    + rewrite E. unfold Qdiv. ring.
    + rewrite F. unfold Qdiv. ring.
Qed.

(** A landscape photo of 2000 by 1000 is scaled to 2700 by 1350; the part
    seen starts 600 pixels from the left of the image and is 800 wide. *)
Lemma cover_crop_witness :
  CropData.x (sourceCrop (Sample.image 2000 1000)
                (centerCrop (Sample.image 2000 1000) 1080 1350) 1080 1350) == 600
  /\ CropData.width (sourceCrop (Sample.image 2000 1000)
                       (centerCrop (Sample.image 2000 1000) 1080 1350) 1080 1350) == 800
  /\ 0 <= CropData.x (sourceCrop (Sample.image 2000 1000)
                        (centerCrop (Sample.image 2000 1000) 1080 1350) 1080 1350)
  /\ offsetX (centerCrop (Sample.image 2000 1000) 1080 1350) == - 810.
Proof.
  pose (q := Sample.quote [] [] bottom).
  pose (c := Canvas.canvasOf
               ((Canvas.setWidth 1080 ;;; Canvas.setHeight 1350) Sample.blank)).
  destruct (cover_crop q c (eq_refl : (0 ?= 2000)%Z = Lt) (eq_refl : (0 ?= 1000)%Z = Lt)
              eq_refl eq_refl eq_refl) as (_ & _ & _ & _ & X & _).
  split; [reflexivity|]. split; [reflexivity|]. split; [exact X | reflexivity].
Defined.

(** C10. The two "ensure minimum size" blocks are redundant. For an image
    with positive width and height the aspect-ratio branch already yields a
    rectangle at least 1080 wide and 1350 high, neither block changes it,
    and the fallback is equal to the branch alone. *)
Theorem cover_guards_redundant :
  forall (img : Canvas.Image),
    (0 < Canvas.imageWidth img)%Z ->
    (0 < Canvas.imageHeight img)%Z ->
    let imgAspect := inject_Z (Canvas.imageWidth img) / inject_Z (Canvas.imageHeight img) in
    let r := fitToCanvas imgAspect 1080 1350 in
    1080 <= drawWidth r /\ 1350 <= drawHeight r
    /\ ensureWidth imgAspect 1080 1350 r = r
    /\ ensureHeight imgAspect 1080 1350 r = r
    /\ centerCrop img 1080 1350 = r.
Proof.
  intros img Hw Hh imgAspect r.
  destruct (fit_covers img Hw Hh) as [A B].
  repeat split; [exact A | exact B | | | ].
  - now apply ensureWidth_idle.
  - now apply ensureHeight_idle.
  - now apply centerCrop_fit.
Qed.

Lemma cover_guards_redundant_witness :
  centerCrop (Sample.image 1080 1350) 1080 1350
  = fitToCanvas (inject_Z 1080 / inject_Z 1350) 1080 1350.
Proof.
  exact (proj2 (proj2 (proj2 (proj2
           (cover_guards_redundant (Sample.image 1080 1350)
              (eq_refl : (0 ?= 1080)%Z = Lt) (eq_refl : (0 ?= 1350)%Z = Lt)))))).
Defined.

(** ** Gradient, placement and the whole render *)

(** C5. Gradient stops. With a per-quote gradient start within [0, 1]
    the gradient is built without an exception and its stops are, in this
    order, at the offsets 0, that gradient start and 1, which do not
    decrease; without a per-quote value the middle stop is at 0.5. For text
    at the bottom the three colours are transparent black, transparent
    black, black at alpha 0.85, and for text at the top black at alpha
    0.85, transparent black, transparent black. The overlay fills the
    whole canvas with this gradient. *)
Theorem gradient_stops :
  forall (cssColor : string -> bool) (quote : Quote.t) (c : Canvas.t)
         (gradientStart : Q),
    0 <= gradientStart -> gradientStart <= 1 ->
    Quote.gradientStart quote = Some gradientStart
    \/ (Quote.gradientStart quote = None /\ gradientStart = 0.5) ->
    exists g,
      buildGradient quote (Canvas.height c) c = Canvas.Done g c
      /\ (Quote.textPosition quote = bottom ->
          Canvas.colorStops g
          = [ (0, Canvas.rgba 0 0 0 0); (gradientStart, Canvas.rgba 0 0 0 0);
              (1, Canvas.rgba 0 0 0 0.85) ])
      /\ (Quote.textPosition quote = top ->
          Canvas.colorStops g
          = [ (0, Canvas.rgba 0 0 0 0.85); (gradientStart, Canvas.rgba 0 0 0 0);
              (1, Canvas.rgba 0 0 0 0) ])
      /\ Sorted Qle (List.map fst (Canvas.colorStops g))
      /\ Canvas.x0 g = 0 /\ Canvas.y0 g = 0
      /\ Canvas.x1 g = 0 /\ Canvas.y1 g = Canvas.height c
      /\ exists c',
           drawGradient cssColor quote c = Canvas.Done tt c'
           /\ Canvas.bitmap c'
              = Canvas.bitmap c
                ++ [Canvas.FillRect (Canvas.Linear g) 0 0 (Canvas.width c)
                      (Canvas.height c)].
Proof.
  intros cssColor quote c gradientStart H0 H1 Hq.
  assert (E : gradientStartPosition quote = gradientStart).
  { unfold gradientStartPosition.
    destruct Hq as [-> | [-> ->]]; reflexivity. }
  assert (V : validOffset (gradientStartPosition quote)) by (rewrite E; now split).
  exists (overlayGradient quote (Canvas.height c)).
  split; [now apply buildGradient_run|].
  unfold overlayGradient, gradientStops. rewrite E. cbn [Canvas.colorStops].
  split; [|split; [|split]].
  - intros ->. reflexivity.
  - intros ->. reflexivity.
  - destruct (Quote.textPosition quote); repeat constructor; assumption.
  - cbn [Canvas.x0 Canvas.y0 Canvas.x1 Canvas.y1]. repeat (split; [reflexivity|]).
    eexists. split; [now apply drawGradient_run|].
    unfold paintOn, overlayOp, overlayGradient, gradientStops.
    cbn [Canvas.bitmap]. now rewrite E.
Qed.

(** The scenario of the specification: text at the top, gradient start
    0.3. *)
Lemma gradient_stops_witness :
  exists g,
    buildGradient (Sample.quoteFrom 0.3 (lit "hello") top) (Canvas.height Sample.blank)
      Sample.blank
    = Canvas.Done g Sample.blank
    /\ Canvas.colorStops g
       = [ (0, Canvas.rgba 0 0 0 0.85); (0.3, Canvas.rgba 0 0 0 0);
           (1, Canvas.rgba 0 0 0 0) ].
Proof.
  assert (L : 0 <= 0.3) by discriminate.
  assert (U : 0.3 <= 1) by discriminate.
  destruct (gradient_stops Sample.cssColor (Sample.quoteFrom 0.3 (lit "hello") top)
              Sample.blank 0.3 L U (or_introl eq_refl))
    as (g & B & _ & T & _).
  exists g. split; [exact B | exact (T eq_refl)].
Defined.



(** ** Degenerate input and determinism *)

Section EmptyQuote.

Variable toUpperCase : jsstring -> jsstring.
Variable width : jsstring -> Q.

Lemma layoutLines_empty : toUpperCase [] = [] -> layoutLines toUpperCase width [] = [[]].
Proof.
  intros U. unfold layoutLines, wrapWords. rewrite U.
  cbn [split fold_left]. unfold wrapWord. rewrite andb_false_r. reflexivity.
Qed.

End EmptyQuote.

(** C8. Empty quote text. The layout of the empty text is one empty line,
    which holds no word. On a canvas with a 2D context and for a gradient
    start within [0, 1] the render completes, and what it paints is the
    background, the gradient overlay, the opening quotation mark and the
    artist-name caption. *)
Theorem empty_quote :
  forall (toUpperCase : jsstring -> jsstring)
         (textWidth : Canvas.Font -> jsstring -> Q)
         (cssColor : string -> bool)
         (settings : Settings.t) (quote : Quote.t) (c : Canvas.t),
    toUpperCase [] = [] ->
    Quote.text quote = [] ->
    Canvas.has2d c = true ->
    validOffset (gradientStartPosition quote) ->
    quoteLines toUpperCase textWidth settings quote = [[]]
    /\ flat_map lineWords (quoteLines toUpperCase textWidth settings quote) = []
    /\ exists c' mark caption x y k x' y' k',
         drawQuoteOnCanvas toUpperCase textWidth cssColor settings quote c = Canvas.Done tt c'
         /\ Canvas.bitmap c'
            = [backgroundOp quote 1080 1350; overlayOp quote 1080 1350; mark; caption]
         /\ mark = Canvas.FillText openingQuote x y k
         /\ caption
            = Canvas.FillText (toUpperCase (Settings.artistName settings)) x' y' k'.
Proof.
  intros toUpperCase textWidth cssColor settings quote c U Ht Hc Hg.
  assert (L : quoteLines toUpperCase textWidth settings quote = [[]]).
  { unfold quoteLines. rewrite Ht. now apply layoutLines_empty. }
  split; [exact L|]. split; [now rewrite L|].
  exists (rendered toUpperCase textWidth cssColor settings quote).
  do 8 eexists. split; [now apply drawQuoteOnCanvas_run|].
  cbn [rendered Canvas.bitmap]. unfold displayList, textOps. rewrite L.
  cbn [quoteMarkOps linesOps lineOps lineWords wordOps app].
  split; [|split]; reflexivity.
Qed.

Lemma empty_quote_witness :
  Canvas.completed
    (drawQuoteOnCanvas Sample.toUpperCase (Sample.monospace 30) Sample.cssColor Sample.settings
       (Sample.quote [] [] bottom) Sample.blank) = true
  /\ List.length
       (Canvas.bitmap
          (Canvas.canvasOf
             (drawQuoteOnCanvas Sample.toUpperCase (Sample.monospace 30) Sample.cssColor Sample.settings
                (Sample.quote [] [] bottom) Sample.blank))) = 4%nat.
Proof.
  assert (V : validOffset (gradientStartPosition (Sample.quote [] [] bottom)))
    by (split; discriminate).
  destruct (empty_quote Sample.toUpperCase (Sample.monospace 30) Sample.cssColor Sample.settings
              (Sample.quote [] [] bottom) Sample.blank eq_refl eq_refl eq_refl V) as (_ & _ & c' & mark & caption & x & y & k & x' & y' & k' & R & B & _).
  rewrite R. cbn [Canvas.completed Canvas.canvasOf]. rewrite B. split; reflexivity.
Defined.

(** The empty text is laid out as one line, not as none. *)
Lemma empty_quote_one_line :
  quoteLines Sample.toUpperCase (Sample.monospace 30) Sample.settings
    (Sample.quote [] [] bottom) <> [].
Proof. vm_compute. discriminate. Qed.

(** C9. Determinism. On a canvas that provides a 2D context the outcome of
    a render (completion or exception, context, painted operations: lines,
    positions, gradient stops, highlight decisions, caption) is a function
    of the request, of [toUpperCase], of the measurement function and of
    the colour parser of the canvas. Hence
    two renders of the same request have the same outcome, whatever was
    painted or set on the canvases before, and rendering a second time on
    the canvas left by a first render changes nothing. *)
Theorem render_deterministic :
  forall (toUpperCase : jsstring -> jsstring)
         (textWidth : Canvas.Font -> jsstring -> Q)
         (cssColor : string -> bool)
         (settings : Settings.t) (quote : Quote.t),
    (forall c,
        Canvas.has2d c = true ->
        drawQuoteOnCanvas toUpperCase textWidth cssColor settings quote c
        = outcomeOf toUpperCase textWidth cssColor settings quote)
    /\ (forall c1 c2,
          Canvas.has2d c1 = true -> Canvas.has2d c2 = true ->
          drawQuoteOnCanvas toUpperCase textWidth cssColor settings quote c1
          = drawQuoteOnCanvas toUpperCase textWidth cssColor settings quote c2)
    /\ (forall c,
          drawQuoteOnCanvas toUpperCase textWidth cssColor settings quote
            (Canvas.canvasOf (drawQuoteOnCanvas toUpperCase textWidth cssColor settings quote c))
          = drawQuoteOnCanvas toUpperCase textWidth cssColor settings quote c).
Proof.
  intros toUpperCase textWidth cssColor settings quote. split; [|split].
  - intros c Hc. now apply drawQuoteOnCanvas_outcome.
  - intros c1 c2 H1 H2. now rewrite !drawQuoteOnCanvas_outcome.
  - intros c. destruct (Canvas.has2d c) eqn:Hc.
    + rewrite (drawQuoteOnCanvas_outcome _ _ _ _ _ c Hc).
      apply drawQuoteOnCanvas_outcome, outcomeOf_has2d.
    + now rewrite !(drawQuoteOnCanvas_no_context _ _ _ _ _ c Hc).
Qed.

Lemma render_deterministic_witness :
  drawQuoteOnCanvas Sample.toUpperCase (Sample.monospace 30) Sample.cssColor Sample.settings
    (Sample.quote (lit "the only way out is through") (lit "through") bottom)
    Sample.blank
  = drawQuoteOnCanvas Sample.toUpperCase (Sample.monospace 30) Sample.cssColor Sample.settings
      (Sample.quote (lit "the only way out is through") (lit "through") bottom)
      Sample.used.
Proof.
  exact (proj1 (proj2 (render_deterministic Sample.toUpperCase (Sample.monospace 30) Sample.cssColor
                         Sample.settings
                         (Sample.quote (lit "the only way out is through")
                            (lit "through") bottom)))
           Sample.blank Sample.used eq_refl eq_refl).
Defined.

(** * Further properties of the page *)

(** ** More on the renderer *)

Section LineWidths.

Variable width : jsstring -> Q.
Variable allWords : list jsstring.

Implicit Types (word currentLine : jsstring) (words lines : list jsstring).

(** A buffer measures at most [maxWidth], or holds a single word. *)
Let fits (buffer : jsstring) : Prop :=
  width buffer <= maxWidth \/ exists word, In word allWords /\ buffer = word ++ [SPACE].

Let fitted (line : jsstring) : Prop := exists buffer, line = trim buffer /\ fits buffer.

Lemma Qgtb_false x y : Qgtb x y = false -> x <= y.
Proof.
  unfold Qgtb. intros H. apply negb_false_iff in H. now apply Qle_bool_iff.
Qed.

Lemma wrapWord_fits lines currentLine word :
  In word allWords ->
  Forall fitted lines -> (currentLine = [] \/ fits currentLine) ->
  Forall fitted (fst (wrapWord width (lines, currentLine) word))
  /\ fits (snd (wrapWord width (lines, currentLine) word)).
Proof.
  intros Hin Hl Hc. unfold wrapWord.
  destruct (Qgtb (width (currentLine ++ word ++ [SPACE])) maxWidth) eqn:Ew;
    destruct currentLine as [|c s]; simpl.
  - split; [exact Hl|]. right. now exists word.
  - split.
    + apply Forall_app. split; [exact Hl|]. constructor; [|constructor].
      exists (c :: s). split; [reflexivity|].
      destruct Hc as [Hc|Hc]; [discriminate | exact Hc].
    + right. now exists word.
  - split; [exact Hl|]. right. now exists word.
  - split; [exact Hl|]. left. now apply Qgtb_false.
Qed.

Lemma fold_wrapWord_fits words : forall lines currentLine,
  incl words allWords ->
  Forall fitted lines -> (currentLine = [] \/ fits currentLine) ->
  Forall fitted (flushLine (fold_left (wrapWord width) words (lines, currentLine))).
Proof.
  induction words as [|w words IH]; intros lines currentLine Hi Hl Hc.
  - simpl. destruct currentLine as [|c s]; [exact Hl|].
    apply Forall_app. split; [exact Hl|]. constructor; [|constructor].
    exists (c :: s). split; [reflexivity|].
    destruct Hc as [Hc|Hc]; [discriminate | exact Hc].
  - cbn [fold_left].
    destruct (wrapWord_fits lines currentLine w (Hi w (or_introl eq_refl)) Hl Hc)
      as [A B].
    destruct (wrapWord width (lines, currentLine) w) as [lines' currentLine'].
    apply IH; [|exact A|right; exact B].
    intros x Hx. apply Hi. now right.
Qed.

End LineWidths.

(** X1. No line overflows unless it holds a single word: every line of the
    layout is the trimmed form of a buffer that measured at most 900
    pixels, trailing space included, or of a buffer made of one word. *)
Theorem lines_fit_or_single_word :
  forall (width : jsstring -> Q) (words : list jsstring),
    Forall (fun line =>
              exists buffer,
                line = trim buffer
                /\ (width buffer <= maxWidth
                    \/ exists word, In word words /\ buffer = word ++ [SPACE]))
      (wrapWords width words).
Proof.
  intros width words. unfold wrapWords.
  apply (fold_wrapWord_fits width words words [] []).
  - apply incl_refl.
  - constructor.
  - now left.
Qed.

Section PaintedTexts.

Variable toUpperCase : jsstring -> jsstring.
Variable textWidth : Canvas.Font -> jsstring -> Q.
Variable cssColor : string -> bool.
Variable settings : Settings.t.

Lemma backgroundOp_text quote w h : opText (backgroundOp quote w h) = None.
Proof. unfold backgroundOp. now destruct (Quote.cropData quote). Qed.

Lemma displayList_text quote :
  List.map opText (displayList toUpperCase textWidth cssColor settings quote)
  = [None; None; Some openingQuote]
    ++ List.map Some (lineWords (toUpperCase (Quote.text quote)))
    ++ [Some (toUpperCase (Settings.artistName settings))].
Proof.
  unfold displayList, textOps. cbn [app List.map].
  rewrite backgroundOp_text. cbn [overlayOp opText].
  rewrite !map_app, linesOps_text. unfold quoteLines.
  rewrite layoutLines_words.
  destruct (layoutLines toUpperCase (textWidth (bodyFont settings quote))
              (Quote.text quote)) as [|first rest] eqn:E.
  - now destruct (layoutLines_not_nil toUpperCase
                    (textWidth (bodyFont settings quote)) (Quote.text quote)).
  - reflexivity.
Qed.

End PaintedTexts.

(** X2. What a completed render writes: one [fillText] for the opening
    quotation mark, then one per white-space-delimited word of the
    uppercased quote text, in order, then one for the uppercased artist
    name; the two operations before them (background, gradient) write no
    text. *)
Theorem painted_texts :
  forall (toUpperCase : jsstring -> jsstring)
         (textWidth : Canvas.Font -> jsstring -> Q)
         (cssColor : string -> bool)
         (settings : Settings.t) (quote : Quote.t) (c : Canvas.t),
    Canvas.has2d c = true ->
    validOffset (gradientStartPosition quote) ->
    List.map opText
      (Canvas.bitmap
         (Canvas.canvasOf (drawQuoteOnCanvas toUpperCase textWidth cssColor settings quote c)))
    = [None; None; Some openingQuote]
      ++ List.map Some (lineWords (toUpperCase (Quote.text quote)))
      ++ [Some (toUpperCase (Settings.artistName settings))].
Proof.
  intros toUpperCase textWidth cssColor settings quote c Hc Hg.
  rewrite (drawQuoteOnCanvas_run _ _ _ _ _ c Hc Hg).
  apply displayList_text.
Qed.

Lemma painted_texts_witness :
  List.map opText
    (Canvas.bitmap
       (Canvas.canvasOf
          (drawQuoteOnCanvas Sample.toUpperCase (Sample.monospace 30) Sample.cssColor Sample.settings
             (Sample.quote (lit "way  out") [] bottom) Sample.blank)))
  = [None; None; Some openingQuote; Some (lit "WAY"); Some (lit "OUT");
     Some (lit "ARTIST")].
Proof.
  assert (V : validOffset (gradientStartPosition (Sample.quote (lit "way  out") [] bottom)))
    by (split; discriminate).
  refine (eq_trans
            (painted_texts Sample.toUpperCase (Sample.monospace 30) Sample.cssColor Sample.settings
               (Sample.quote (lit "way  out") [] bottom) Sample.blank eq_refl V) _).
  reflexivity.
Defined.

(** X3. The render throws exactly when the gradient start is outside
    [0, 1] (an IndexSizeError from [addColorStop]); the canvas then has been
    resized and holds the background image and nothing else. *)
Theorem render_throws_iff :
  forall (toUpperCase : jsstring -> jsstring)
         (textWidth : Canvas.Font -> jsstring -> Q)
         (cssColor : string -> bool)
         (settings : Settings.t) (quote : Quote.t) (c : Canvas.t),
    Canvas.has2d c = true ->
    (Canvas.completed (drawQuoteOnCanvas toUpperCase textWidth cssColor settings quote c) = true
     <-> validOffset (gradientStartPosition quote))
    /\ (~ validOffset (gradientStartPosition quote) ->
        exists c',
          drawQuoteOnCanvas toUpperCase textWidth cssColor settings quote c
          = Canvas.Throw Canvas.IndexSizeError c'
          /\ Canvas.width c' = 1080 /\ Canvas.height c' = 1350
          /\ Canvas.bitmap c' = [backgroundOp quote 1080 1350]).
Proof.
  intros toUpperCase textWidth cssColor settings quote c Hc. split.
  - destruct (validOffsetb (gradientStartPosition quote)) eqn:E.
    + apply validOffsetb_true in E.
      rewrite (drawQuoteOnCanvas_run _ _ _ _ _ c Hc E). now split.
    + apply validOffsetb_false in E.
      rewrite (drawQuoteOnCanvas_throw _ _ _ _ _ c Hc E). simpl.
      split; [discriminate | intros H; now destruct E].
  - intros Hg. exists (interrupted quote).
    rewrite (drawQuoteOnCanvas_throw _ _ _ _ _ c Hc Hg). now repeat split.
Qed.

Lemma render_throws_iff_witness :
  Canvas.completed
    (drawQuoteOnCanvas Sample.toUpperCase (Sample.monospace 30) Sample.cssColor Sample.settings
       (Sample.quote (lit "way out") [] top) Sample.used) = true.
Proof.
  apply (proj1 (render_throws_iff Sample.toUpperCase (Sample.monospace 30) Sample.cssColor
                  Sample.settings (Sample.quote (lit "way out") [] top)
                  Sample.used eq_refl)).
  split; discriminate.
Defined.

(** ** Editing the quote inputs *)

Section Editing.

Implicit Types (q : QuoteInput.t) (prev inputs : list QuoteInput.t) (quoteId : string).

(** The common shape of the three updaters. *)
Let mapWhere (quoteId : string) (f : QuoteInput.t -> QuoteInput.t) prev :=
  List.map (fun q => if String.eqb (QuoteInput.id q) quoteId then f q else q) prev.

Lemma mapWhere_ids quoteId f prev :
  (forall q, QuoteInput.id (f q) = QuoteInput.id q) ->
  inputIds (mapWhere quoteId f prev) = inputIds prev.
Proof.
  intros Hf. unfold inputIds, mapWhere. rewrite map_map. apply map_ext.
  intros q. destruct (String.eqb _ _); [apply Hf | reflexivity].
Qed.

Lemma mapWhere_nth quoteId f prev i q :
  nth_error prev i = Some q ->
  nth_error (mapWhere quoteId f prev) i
  = Some (if String.eqb (QuoteInput.id q) quoteId then f q else q).
Proof. intros H. unfold mapWhere. now rewrite nth_error_map, H. Qed.

Lemma mapWhere_other quoteId f prev i q :
  nth_error prev i = Some q -> QuoteInput.id q <> quoteId ->
  nth_error (mapWhere quoteId f prev) i = Some q.
Proof.
  intros H Hn. rewrite (mapWhere_nth quoteId f prev i q H).
  apply String.eqb_neq in Hn. now rewrite Hn.
Qed.

Lemma mapWhere_unknown quoteId f prev :
  ~ In quoteId (inputIds prev) -> mapWhere quoteId f prev = prev.
Proof.
  intros Hn. unfold mapWhere. rewrite <- (map_id prev) at 2.
  apply map_ext_in. intros q Hq.
  destruct (String.eqb (QuoteInput.id q) quoteId) eqn:E; [|reflexivity].
  apply String.eqb_eq in E. exfalso. apply Hn. subst quoteId.
  unfold inputIds. now apply in_map.
Qed.

Lemma mapWhere_mapWhere_same quoteId f g prev :
  (forall q, QuoteInput.id (f q) = QuoteInput.id q) ->
  mapWhere quoteId g (mapWhere quoteId f prev)
  = mapWhere quoteId (fun q => g (f q)) prev.
Proof.
  intros Hf. unfold mapWhere. rewrite map_map. apply map_ext. intros q.
  destruct (String.eqb (QuoteInput.id q) quoteId) eqn:E.
  - now rewrite Hf, E.
  - now rewrite E.
Qed.

Lemma mapWhere_commute a b f g prev :
  (forall q, QuoteInput.id (f q) = QuoteInput.id q) ->
  (forall q, QuoteInput.id (g q) = QuoteInput.id q) ->
  (forall q, f (g q) = g (f q)) ->
  mapWhere a f (mapWhere b g prev) = mapWhere b g (mapWhere a f prev).
Proof.
  intros Hf Hg Hc. unfold mapWhere. rewrite !map_map. apply map_ext. intros q.
  destruct (String.eqb (QuoteInput.id q) a) eqn:Ea;
    destruct (String.eqb (QuoteInput.id q) b) eqn:Eb;
    rewrite ?Hf, ?Hg, ?Ea, ?Eb; auto.
Qed.

Lemma assign_id q fv : (forall v, fv <> SetId v) -> QuoteInput.id (assign q fv) = QuoteInput.id q.
Proof. intros H. destruct fv; try reflexivity. now destruct (H value). Qed.

Lemma filter_ids_length quoteId inputs :
  NoDup (inputIds inputs) ->
  (List.length inputs
   <= S (List.length
           (filter (fun q => negb (String.eqb (QuoteInput.id q) quoteId)) inputs)))%nat.
Proof.
  induction inputs as [|q inputs IH]; intros Hd; simpl; [lia|].
  inversion Hd as [|? ? Hq Hd']; subst.
  destruct (String.eqb (QuoteInput.id q) quoteId) eqn:E; simpl.
  - apply String.eqb_eq in E. subst quoteId.
    assert (F : filter (fun x => negb (String.eqb (QuoteInput.id x) (QuoteInput.id q)))
                  inputs = inputs).
    { rewrite <- (filter_true inputs) at 2. apply filter_ext_in. intros x Hx.
      destruct (String.eqb (QuoteInput.id x) (QuoteInput.id q)) eqn:Ex; [|reflexivity].
      apply String.eqb_eq in Ex. exfalso. apply Hq. rewrite <- Ex.
      unfold inputIds. now apply in_map. }
    rewrite F. lia.
  - specialize (IH Hd'). lia.
Qed.

Lemma filter_ids quoteId inputs :
  inputIds (filter (fun q => negb (String.eqb (QuoteInput.id q) quoteId)) inputs)
  = filter (fun id => negb (String.eqb id quoteId)) (inputIds inputs).
Proof.
  induction inputs as [|q inputs IH]; simpl; [reflexivity|].
  destruct (String.eqb (QuoteInput.id q) quoteId); simpl; now rewrite IH.
Qed.

Lemma filter_fresh quoteId inputs :
  ~ In quoteId (inputIds inputs) ->
  filter (fun q => negb (String.eqb (QuoteInput.id q) quoteId)) inputs = inputs.
Proof.
  intros Hn. rewrite <- (filter_true inputs) at 2. apply filter_ext_in. intros x Hx.
  destruct (String.eqb (QuoteInput.id x) quoteId) eqn:Ex; [|reflexivity].
  apply String.eqb_eq in Ex. exfalso. apply Hn. rewrite <- Ex.
  unfold inputIds. now apply in_map.
Qed.

End Editing.

(** X4. The three field updaters change nothing but the inputs that carry
    the given id: the list keeps its ids in the same order (as long as the
    field assigned is not the id itself), every input with another id stays
    where and as it was, and an id that no input carries leaves the list
    unchanged. *)
Theorem updates_touch_only_matching :
  forall (quoteId : string) (prev : list QuoteInput.t),
    (forall fv, (forall v, fv <> SetId v) ->
                inputIds (updateQuoteInput quoteId fv prev) = inputIds prev)
    /\ (forall size, inputIds (updateQuoteFontSize quoteId size prev) = inputIds prev)
    /\ (forall start, inputIds (updateQuoteGradientStart quoteId start prev) = inputIds prev)
    /\ (forall i q fv size start,
          nth_error prev i = Some q -> QuoteInput.id q <> quoteId ->
          nth_error (updateQuoteInput quoteId fv prev) i = Some q
          /\ nth_error (updateQuoteFontSize quoteId size prev) i = Some q
          /\ nth_error (updateQuoteGradientStart quoteId start prev) i = Some q)
    /\ (~ In quoteId (inputIds prev) ->
        forall fv size start,
          updateQuoteInput quoteId fv prev = prev
          /\ updateQuoteFontSize quoteId size prev = prev
          /\ updateQuoteGradientStart quoteId start prev = prev).
Proof.
  intros quoteId prev. repeat split.
  - intros fv Hfv. apply (mapWhere_ids quoteId (fun q => assign q fv)).
    intros q. now apply assign_id.
  - intros size. now apply (mapWhere_ids quoteId (fun q => withFontSize q size)).
  - intros start. now apply (mapWhere_ids quoteId (fun q => withGradientStart q start)).
  - now apply (mapWhere_other quoteId (fun q => assign q fv)).
  - now apply (mapWhere_other quoteId (fun q => withFontSize q size)).
  - now apply (mapWhere_other quoteId (fun q => withGradientStart q start)).
  - now apply (mapWhere_unknown quoteId (fun q => assign q fv)).
  - now apply (mapWhere_unknown quoteId (fun q => withFontSize q size)).
  - now apply (mapWhere_unknown quoteId (fun q => withGradientStart q start)).
Qed.

Lemma updates_touch_only_matching_witness :
  updateQuoteInput "c" (SetText (lit "new")) [blankInput "a"; blankInput "b"]
  = [blankInput "a"; blankInput "b"]
  /\ nth_error (updateQuoteFontSize "b" (Some 90) [blankInput "a"; blankInput "b"]) 0
     = Some (blankInput "a").
Proof.
  split.
  - assert (U : ~ In "c"%string (inputIds [blankInput "a"; blankInput "b"])).
    { simpl. intuition discriminate. }
    exact (proj1 (proj2 (proj2 (proj2 (proj2
             (updates_touch_only_matching "c" [blankInput "a"; blankInput "b"]))))
             U (SetText (lit "new")) None None)).
  - assert (N : QuoteInput.id (blankInput "a") <> "b"%string) by discriminate.
    exact (proj1 (proj2 (proj1 (proj2 (proj2 (proj2
             (updates_touch_only_matching "b" [blankInput "a"; blankInput "b"]))))
             0%nat (blankInput "a") (SetText []) (Some 90) None eq_refl N))).
Defined.

(** X5. How the overrides compose: after [updateQuoteFontSize] every input
    with the id has the new font size and its other fields as before; a
    second update of the same field for the same id overwrites the first;
    a font size update and a gradient start update commute, for the same
    or for different ids. *)
Theorem overrides_compose :
  forall (prev : list QuoteInput.t),
    (forall quoteId size i q,
        nth_error prev i = Some q -> QuoteInput.id q = quoteId ->
        nth_error (updateQuoteFontSize quoteId size prev) i = Some (withFontSize q size))
    /\ (forall quoteId start i q,
          nth_error prev i = Some q -> QuoteInput.id q = quoteId ->
          nth_error (updateQuoteGradientStart quoteId start prev) i
          = Some (withGradientStart q start))
    /\ (forall quoteId size1 size2,
          updateQuoteFontSize quoteId size2 (updateQuoteFontSize quoteId size1 prev)
          = updateQuoteFontSize quoteId size2 prev)
    /\ (forall quoteId start1 start2,
          updateQuoteGradientStart quoteId start2
            (updateQuoteGradientStart quoteId start1 prev)
          = updateQuoteGradientStart quoteId start2 prev)
    /\ (forall a b size start,
          updateQuoteFontSize a size (updateQuoteGradientStart b start prev)
          = updateQuoteGradientStart b start (updateQuoteFontSize a size prev)).
Proof.
  intros prev. unfold updateQuoteFontSize, updateQuoteGradientStart. repeat split.
  - intros quoteId size i q H E.
    rewrite (mapWhere_nth quoteId (fun q => withFontSize q size) prev i q H).
    apply String.eqb_eq in E. now rewrite E.
  - intros quoteId start i q H E.
    rewrite (mapWhere_nth quoteId (fun q => withGradientStart q start) prev i q H).
    apply String.eqb_eq in E. now rewrite E.
  - intros quoteId size1 size2.
    apply (mapWhere_mapWhere_same quoteId (fun q => withFontSize q size1)
             (fun q => withFontSize q size2)). reflexivity.
  - intros quoteId start1 start2.
    apply (mapWhere_mapWhere_same quoteId (fun q => withGradientStart q start1)
             (fun q => withGradientStart q start2)). reflexivity.
  - intros a b size start.
    apply (mapWhere_commute a b (fun q => withFontSize q size)
             (fun q => withGradientStart q start)); reflexivity.
Qed.

Lemma overrides_compose_witness :
  nth_error (updateQuoteFontSize "b" (Some 90) [blankInput "a"; blankInput "b"]) 1
  = Some (withFontSize (blankInput "b") (Some 90))
  /\ nth_error (updateQuoteGradientStart "a" (Some 0.3) [blankInput "a"; blankInput "b"]) 0
     = Some (withGradientStart (blankInput "a") (Some 0.3)).
Proof.
  split.
  - exact (proj1 (overrides_compose [blankInput "a"; blankInput "b"])
             "b"%string (Some 90) 1%nat (blankInput "b") eq_refl eq_refl).
  - exact (proj1 (proj2 (overrides_compose [blankInput "a"; blankInput "b"]))
             "a"%string (Some 0.3) 0%nat (blankInput "a") eq_refl eq_refl).
Defined.

(** X6. Removing a quote input. A list of one input is left as it is. When
    the ids are pairwise distinct, removal from a non-empty list leaves a
    non-empty list with pairwise distinct ids; from a list of more than one
    input the remaining ids are the former ones without the removed id, in
    the same order. *)
Theorem remove_keeps_one :
  forall (quoteId : string) (quoteInputs : list QuoteInput.t),
    ((List.length quoteInputs <= 1)%nat -> removeQuoteInput quoteId quoteInputs = quoteInputs)
    /\ ((1 < List.length quoteInputs)%nat ->
        inputIds (removeQuoteInput quoteId quoteInputs)
        = filter (fun id => negb (String.eqb id quoteId)) (inputIds quoteInputs))
    /\ (NoDup (inputIds quoteInputs) ->
        NoDup (inputIds (removeQuoteInput quoteId quoteInputs))
        /\ (quoteInputs <> [] -> removeQuoteInput quoteId quoteInputs <> [])).
Proof.
  intros quoteId quoteInputs. unfold removeQuoteInput. repeat split.
  - intros H. apply Nat.ltb_ge in H. now rewrite H.
  - intros H. apply Nat.ltb_lt in H. rewrite H. apply filter_ids.
  - destruct (1 <? List.length quoteInputs)%nat; [|assumption].
    rewrite filter_ids. now apply NoDup_filter.
  - intros Hne. destruct (1 <? List.length quoteInputs)%nat eqn:E; [|assumption].
    apply Nat.ltb_lt in E. pose proof (filter_ids_length quoteId quoteInputs H) as L.
    intros Hz. rewrite Hz in L. simpl in L. lia.
Qed.

Lemma remove_keeps_one_witness :
  removeQuoteInput "b" [blankInput "a"; blankInput "b"; blankInput "c"] <> [].
Proof.
  assert (D : NoDup (inputIds [blankInput "a"; blankInput "b"; blankInput "c"])).
  { repeat constructor; simpl; intuition discriminate. }
  apply (proj2 (proj2 (remove_keeps_one "b"
                         [blankInput "a"; blankInput "b"; blankInput "c"])) D).
  discriminate.
Defined.

(** Two inputs that share an id are removed together. *)
Example remove_duplicate_ids :
  removeQuoteInput "a" [blankInput "a"; blankInput "a"] = [].
Proof. reflexivity. Qed.

(** X7. Adding a quote input appends a blank one and keeps the others in
    place; when the new id is fresh the ids stay pairwise distinct, and
    removing the new id again gives back the list, provided it was not
    empty. *)
Theorem add_then_remove :
  forall (newId : string) (prev : list QuoteInput.t),
    addNewQuoteInput newId prev = prev ++ [blankInput newId]
    /\ (forall i q, nth_error prev i = Some q ->
                    nth_error (addNewQuoteInput newId prev) i = Some q)
    /\ (~ In newId (inputIds prev) ->
        (NoDup (inputIds prev) -> NoDup (inputIds (addNewQuoteInput newId prev)))
        /\ (prev <> [] -> removeQuoteInput newId (addNewQuoteInput newId prev) = prev)).
Proof.
  intros newId prev. unfold addNewQuoteInput. repeat split.
  - intros i q H. rewrite nth_error_app1; [exact H|].
    apply nth_error_Some. congruence.
  - intros Hd. unfold inputIds. rewrite map_app. simpl.
    apply NoDup_app; [exact Hd | repeat constructor; intros [] | ].
    intros x Hx [<-|[]]. now apply H.
  - intros Hne. unfold removeQuoteInput.
    assert (L : (1 <? List.length (prev ++ [blankInput newId]))%nat = true).
    { apply Nat.ltb_lt. rewrite length_app. simpl.
      destruct prev; [congruence | simpl; lia]. }
    rewrite L, filter_app. cbn [filter blankInput QuoteInput.id].
    rewrite String.eqb_refl. cbn [negb]. rewrite app_nil_r.
    now apply filter_fresh.
Qed.

Lemma add_then_remove_witness :
  removeQuoteInput "n" (addNewQuoteInput "n" [blankInput "a"]) = [blankInput "a"].
Proof.
  assert (F : ~ In "n"%string (inputIds [blankInput "a"]))
    by (simpl; intuition discriminate).
  apply (proj2 (proj2 (proj2 (add_then_remove "n" [blankInput "a"])) F)).
  discriminate.
Defined.

(** ** Numbers as strings, and the per-quote overrides *)

Section NumberStrings.

Lemma decimalDigits_head d :
  d <> Decimal.Nil ->
  exists c rest,
    decimalDigits d = c :: rest
    /\ In c [48; 49; 50; 51; 52; 53; 54; 55; 56; 57]%N.
Proof.
  intros H. destruct d; [congruence | ..];
    (eexists; eexists; split; [reflexivity|]; simpl; tauto).
Qed.

Lemma parseDigits_step (p : positive) (k A : N) (f : positive -> positive) :
  match (N.pos p * 10 + k)%N with
  | 0%N => A
  | N.pos q => N.pos (f q)
  end
  = N.pos (f match k with
             | 0%N => Pos.mul 10 p
             | N.pos kp => Pos.add kp (Pos.mul 10 p)
             end).
Proof. destruct k; simpl; f_equal; f_equal; lia. Qed.

Lemma parseDigits_decimal d : forall acc,
  parseDigits acc (decimalDigits d)
  = match acc with
    | N0 => Pos.of_uint d
    | Npos p => Npos (Pos.of_uint_acc d p)
    end.
Proof.
  induction d; intros acc; cbn [decimalDigits parseDigits];
    [now destruct acc | ..].
  all: match goal with |- context [digitValue ?c] =>
         change (digitValue c) with (Some (c - 48)%N) end.
  all: cbv iota beta; rewrite IHd; destruct acc as [|p]; [reflexivity|].
  all: rewrite parseDigits_step; reflexivity.
Qed.

Lemma parseInt10_digits c rest :
  In c [48; 49; 50; 51; 52; 53; 54; 55; 56; 57]%N ->
  parseInt10 (c :: rest) = Num (Z.of_N (parseDigits 0 (c :: rest)))
  /\ parseInt10 (45%N :: c :: rest) = Num (- Z.of_N (parseDigits 0 (c :: rest))).
Proof.
  intros H. simpl in H.
  repeat (destruct H as [<-|H]; [split; unfold parseInt10; cbn [trimStart];
    match goal with |- context [isWhiteSpace ?x] =>
      change (isWhiteSpace x) with false end; cbv iota; cbn [snd fst];
    match goal with |- context [digitValue ?x] =>
      change (digitValue x) with (Some (x - 48)%N) end; cbv iota;
    f_equal; now destruct (Z.of_N _) |]).
  contradiction.
Qed.

Lemma parseInt10_numberToString n : parseInt10 (numberToString n) = n.
Proof.
  destruct n as [z|]; [|reflexivity].
  destruct z as [|p|p]; [reflexivity | |]; cbn [numberToString Z.to_int];
    destruct (decimalDigits_head _ (DecimalPos.Unsigned.to_uint_nonnil p))
      as (c & rest & E & Hc);
    destruct (parseInt10_digits c rest Hc) as [P M]; rewrite E.
  - rewrite P, <- E, (parseDigits_decimal _ 0), DecimalPos.Unsigned.of_to.
    reflexivity.
  - rewrite M, <- E, (parseDigits_decimal _ 0), DecimalPos.Unsigned.of_to.
    reflexivity.
Qed.

Lemma numberToString_nonEmpty n : nonEmpty (numberToString n) = true.
Proof.
  destruct n as [z|]; [|reflexivity].
  destruct z as [|p|p]; [reflexivity | | reflexivity]. cbn [numberToString Z.to_int].
  destruct (decimalDigits_head _ (DecimalPos.Unsigned.to_uint_nonnil p))
    as (c & rest & E & _). now rewrite E.
Qed.

End NumberStrings.

Section Overrides.

Variable loadImage : string -> option Canvas.Image.
Variable smartcrop : Canvas.Image -> option CropData.t.

Implicit Types (q : QuoteInput.t) (prev inputs : list QuoteInput.t) (quoteId : string).

Lemma processQuoteInput_fields q quote :
  processQuoteInput loadImage smartcrop q = Some quote ->
  Quote.id quote = QuoteInput.id q
  /\ Quote.text quote = QuoteInput.text q
  /\ Quote.highlightedWord quote = QuoteInput.highlightedWord q
  /\ Quote.textPosition quote = QuoteInput.textPosition q
  /\ Quote.fontSize quote = QuoteInput.fontSize q
  /\ Quote.gradientStart quote = QuoteInput.gradientStart q.
Proof.
  unfold processQuoteInput. destruct (loadImage _); [|discriminate].
  intros E. injection E as <-. now repeat split.
Qed.

Lemma inject_Z_nonzero v : (40 <= v)%Z -> Qeq_bool (inject_Z v) 0 = false.
Proof.
  intros H. destruct (Qeq_bool (inject_Z v) 0) eqn:E; [|reflexivity].
  apply Qeq_bool_iff in E. unfold Qeq, inject_Z in E. simpl in E. lia.
Qed.

Lemma updateQuoteFontSize_nth quoteId size prev i q :
  nth_error prev i = Some q -> QuoteInput.id q = quoteId ->
  nth_error (updateQuoteFontSize quoteId size prev) i = Some (withFontSize q size).
Proof.
  intros H E. unfold updateQuoteFontSize. rewrite nth_error_map, H. simpl.
  apply String.eqb_eq in E. now rewrite E.
Qed.

Lemma updateQuoteGradientStart_nth quoteId start prev i q :
  nth_error prev i = Some q -> QuoteInput.id q = quoteId ->
  nth_error (updateQuoteGradientStart quoteId start prev) i
  = Some (withGradientStart q start).
Proof.
  intros H E. unfold updateQuoteGradientStart. rewrite nth_error_map, H. simpl.
  apply String.eqb_eq in E. now rewrite E.
Qed.

Lemma gradientsValid_map f prev :
  (forall q, QuoteInput.gradientStart (f q) = QuoteInput.gradientStart q) ->
  gradientsValid prev -> gradientsValid (List.map f prev).
Proof.
  intros Hf H. unfold gradientsValid in *. apply Forall_map.
  eapply Forall_impl; [|exact H]. intros q Hq. now rewrite Hf.
Qed.

Lemma gradientsValid_updateQuoteGradientStart quoteId start prev :
  match start with Some g => validOffset g | None => True end ->
  gradientsValid prev -> gradientsValid (updateQuoteGradientStart quoteId start prev).
Proof.
  intros Hs H. unfold gradientsValid, updateQuoteGradientStart in *.
  apply Forall_map. eapply Forall_impl; [|exact H]. intros q Hq. simpl.
  now destruct (String.eqb _ _).
Qed.

Lemma gradientsValid_gradientField quoteId val prev :
  gradientsValid prev -> gradientsValid (gradientField_onChange quoteId val prev).
Proof.
  intros H. unfold gradientField_onChange. destruct val as [v|]; [|exact H].
  destruct (Qle_bool 0 v && Qle_bool v 1) eqn:E; [|exact H].
  apply gradientsValid_updateQuoteGradientStart; [|exact H].
  destruct (Qeq_bool v 0.5); [exact I|]. now apply validOffsetb_true.
Qed.

End Overrides.

(** X8. The font size field of a quote. A value that does not parse to an
    integer between 40 and 120 changes nothing. An accepted value becomes
    the size at which the quote generated from that input is rendered
    ([quote.fontSize || fontSize]). When it equals the global size no
    override is stored, so the quote follows the global size; otherwise the
    override is stored and the quote is rendered at it whatever the global
    size becomes. *)
Theorem font_size_field :
  forall (loadImage : string -> option Canvas.Image)
         (smartcrop : Canvas.Image -> option CropData.t)
         (settings : Settings.t) (quoteId : string) (value : jsstring)
         (prev : list QuoteInput.t),
    ((parseInt10 value = NaN
      \/ exists val, parseInt10 value = Num val /\ (val < 40 \/ 120 < val)%Z) ->
     fontSizeField_onChange (Settings.fontSize settings) quoteId value prev = prev)
    /\ (forall val i q,
          parseInt10 value = Num val -> (40 <= val <= 120)%Z ->
          nth_error prev i = Some q -> QuoteInput.id q = quoteId ->
          exists q',
            nth_error
              (fontSizeField_onChange (Settings.fontSize settings) quoteId value prev) i
            = Some q'
            /\ (forall quote,
                  processQuoteInput loadImage smartcrop q' = Some quote ->
                  effectiveFontSize settings quote == inject_Z val)
            /\ (inject_Z val == Settings.fontSize settings ->
                QuoteInput.fontSize q' = None)
            /\ (~ inject_Z val == Settings.fontSize settings ->
                forall settings' quote,
                  processQuoteInput loadImage smartcrop q' = Some quote ->
                  effectiveFontSize settings' quote = inject_Z val)).
Proof.
  intros loadImage smartcrop settings quoteId value prev. split.
  - unfold fontSizeField_onChange.
    intros [->|(val & -> & [L|U])]; [reflexivity | |].
    + replace (40 <=? val)%Z with false by (symmetry; apply Z.leb_gt; lia).
      reflexivity.
    + replace (val <=? 120)%Z with false by (symmetry; apply Z.leb_gt; lia).
      now rewrite andb_false_r.
  - intros val i q Hp [L U] Hi Hq. unfold fontSizeField_onChange. rewrite Hp.
    replace (40 <=? val)%Z with true by (symmetry; apply Z.leb_le; lia).
    replace (val <=? 120)%Z with true by (symmetry; apply Z.leb_le; lia).
    cbn [andb]. eexists. split; [exact (updateQuoteFontSize_nth _ _ _ _ q Hi Hq)|].
    destruct (Qeq_bool (inject_Z val) (Settings.fontSize settings)) eqn:E.
    + apply Qeq_bool_iff in E. repeat split.
      * intros quote Hq'.
        destruct (processQuoteInput_fields _ _ _ _ Hq') as (_ & _ & _ & _ & F & _).
        unfold effectiveFontSize. rewrite F. simpl. now symmetry.
      * intros N. now destruct N.
    + repeat split.
      * intros quote Hq'.
        destruct (processQuoteInput_fields _ _ _ _ Hq') as (_ & _ & _ & _ & F & _).
        unfold effectiveFontSize. rewrite F. simpl.
        rewrite (inject_Z_nonzero val L). reflexivity.
      * intros N. apply Qeq_bool_iff in N. congruence.
      * intros _ settings' quote Hq'.
        destruct (processQuoteInput_fields _ _ _ _ Hq') as (_ & _ & _ & _ & F & _).
        unfold effectiveFontSize. rewrite F. simpl.
        now rewrite (inject_Z_nonzero val L).
Qed.

Lemma font_size_field_witness :
  exists q',
    nth_error
      (fontSizeField_onChange (Settings.fontSize Sample.settings) "a" (lit "90")
         [blankInput "a"; blankInput "b"]) 0
    = Some q'
    /\ QuoteInput.fontSize q' <> None.
Proof.
  assert (R : (40 <= 90 <= 120)%Z) by lia.
  destruct (proj2 (font_size_field (fun _ => None) (fun _ => None) Sample.settings
                     "a" (lit "90") [blankInput "a"; blankInput "b"])
              90%Z 0%nat (blankInput "a") eq_refl R eq_refl eq_refl)
    as (q' & E & _).
  exists q'. split; [exact E|].
  injection E as <-. discriminate.
Defined.

(** X9. The gradient start field of a quote. A value that is not a number
    within [0, 1] changes nothing. An accepted value is the gradient start
    with which the quote generated from that input is rendered; the value
    0.5 is stored as no override. *)
Theorem gradient_field :
  forall (loadImage : string -> option Canvas.Image)
         (smartcrop : Canvas.Image -> option CropData.t)
         (quoteId : string) (val : option Q) (prev : list QuoteInput.t),
    ((val = None \/ exists v, val = Some v /\ ~ validOffset v) ->
     gradientField_onChange quoteId val prev = prev)
    /\ (forall v i q,
          val = Some v -> validOffset v ->
          nth_error prev i = Some q -> QuoteInput.id q = quoteId ->
          exists q',
            nth_error (gradientField_onChange quoteId val prev) i = Some q'
            /\ (v == 0.5 -> QuoteInput.gradientStart q' = None)
            /\ forall quote,
                 processQuoteInput loadImage smartcrop q' = Some quote ->
                 gradientStartPosition quote == v).
Proof.
  intros loadImage smartcrop quoteId val prev. split.
  - unfold gradientField_onChange. intros [->|(v & -> & Hv)]; [reflexivity|].
    apply validOffsetb_false in Hv. unfold validOffsetb in Hv. now rewrite Hv.
  - intros v i q -> Hv Hi Hq. unfold gradientField_onChange.
    apply validOffsetb_true in Hv. unfold validOffsetb in Hv. rewrite Hv.
    eexists. split; [exact (updateQuoteGradientStart_nth _ _ _ _ q Hi Hq)|].
    destruct (Qeq_bool v 0.5) eqn:E.
    + apply Qeq_bool_iff in E. split; [reflexivity|].
      intros quote Hq'.
      destruct (processQuoteInput_fields _ _ _ _ Hq') as (_ & _ & _ & _ & _ & F).
      unfold gradientStartPosition. rewrite F. simpl. now symmetry.
    + split.
      * intros N. apply Qeq_bool_iff in N. congruence.
      * intros quote Hq'.
        destruct (processQuoteInput_fields _ _ _ _ Hq') as (_ & _ & _ & _ & _ & F).
        unfold gradientStartPosition. rewrite F. reflexivity.
Qed.

Lemma gradient_field_witness :
  exists q',
    nth_error (gradientField_onChange "a" (Some 0.3) [blankInput "a"; blankInput "b"]) 0
    = Some q'
    /\ QuoteInput.gradientStart q' = Some 0.3.
Proof.
  assert (V : validOffset 0.3) by (split; discriminate).
  destruct (proj2 (gradient_field (fun _ => None) (fun _ => None) "a" (Some 0.3)
                     [blankInput "a"; blankInput "b"])
              0.3 0%nat (blankInput "a") eq_refl V eq_refl eq_refl) as (q' & E & _).
  exists q'. split; [exact E|].
  injection E as <-. reflexivity.
Defined.

(** X10. Editing keeps every per-quote gradient start within [0, 1]: the
    gradient start field, the font size field, the three field updaters
    [updateQuoteFontSize], [updateQuoteGradientStart] and [updateQuoteInput]
    (a gradient start assigned directly has to be within [0, 1] itself),
    adding and removing an input all preserve it, and the initial list of
    one blank input has it. *)
Theorem gradients_stay_valid :
  forall (prev : list QuoteInput.t),
    gradientsValid prev ->
    gradientsValid [blankInput "1"]
    /\ (forall quoteId val, gradientsValid (gradientField_onChange quoteId val prev))
    /\ (forall fontSize quoteId value,
          gradientsValid (fontSizeField_onChange fontSize quoteId value prev))
    /\ (forall quoteId size, gradientsValid (updateQuoteFontSize quoteId size prev))
    /\ (forall quoteId start,
          (forall v, start = Some v -> validOffset v) ->
          gradientsValid (updateQuoteGradientStart quoteId start prev))
    /\ (forall quoteId fv,
          (forall v, fv = SetGradientStart v -> validOffset v) ->
          gradientsValid (updateQuoteInput quoteId fv prev))
    /\ (forall newId, gradientsValid (addNewQuoteInput newId prev))
    /\ (forall quoteId, gradientsValid (removeQuoteInput quoteId prev)).
Proof.
  intros prev H. repeat split.
  - repeat constructor.
  - intros quoteId val. now apply gradientsValid_gradientField.
  - intros fontSize quoteId value. unfold fontSizeField_onChange.
    destruct (parseInt10 value) as [val|]; [|exact H].
    destruct (_ && _); [|exact H].
    apply gradientsValid_map; [|exact H]. intros q. now destruct (String.eqb _ _).
  - intros quoteId size. apply gradientsValid_map; [|exact H].
    intros q. now destruct (String.eqb _ _).
  - intros quoteId start Hs. apply gradientsValid_updateQuoteGradientStart; [|exact H].
    destruct start as [v|]; [now apply Hs | exact I].
  - intros quoteId fv Hfv. unfold gradientsValid, updateQuoteInput in *.
    apply Forall_map. eapply Forall_impl; [|exact H]. intros q Hq. simpl.
    destruct (String.eqb _ _); [|exact Hq].
    destruct fv; try exact Hq. simpl. now apply (Hfv value).
  - intros newId. unfold gradientsValid, addNewQuoteInput in *.
    apply Forall_app. split; [exact H | repeat constructor].
  - intros quoteId. unfold gradientsValid, removeQuoteInput in *.
    destruct (_ <? _)%nat; [|exact H].
    apply Forall_forall. intros q Hq. apply filter_In in Hq.
    rewrite Forall_forall in H. now apply H.
Qed.

Lemma gradients_stay_valid_witness :
  gradientsValid (gradientField_onChange "1" (Some 7) [blankInput "1"])
  /\ gradientsValid (updateQuoteGradientStart "1" (Some 0.3) [blankInput "1"]).
Proof.
  assert (V : gradientsValid [blankInput "1"]) by (repeat constructor).
  assert (S : forall v, Some 0.3 = Some v -> validOffset v).
  { intros v E. injection E as <-. split; discriminate. }
  split.
  - apply (proj1 (proj2 (gradients_stay_valid [blankInput "1"] V))).
  - exact (proj1 (proj2 (proj2 (proj2 (proj2 (gradients_stay_valid [blankInput "1"] V)))))
             "1"%string (Some 0.3) S).
Defined.

(** ** Generating the quotes *)

Section Generation.

Variable loadImage : string -> option Canvas.Image.
Variable smartcrop : Canvas.Image -> option CropData.t.

Implicit Types (q input : QuoteInput.t) (inputs : list QuoteInput.t).

(** The quote an input contributes, if any. *)
Let contribution (input : QuoteInput.t) : list Quote.t :=
  match processQuoteInput loadImage smartcrop input with
  | Some quote => [quote]
  | None => []
  end.

Lemma generate_fold inputs : forall acc,
  fold_left
    (fun newGeneratedQuotes input =>
       match processQuoteInput loadImage smartcrop input with
       | Some quote => newGeneratedQuotes ++ [quote]
       | None => newGeneratedQuotes
       end) inputs acc
  = acc ++ flat_map contribution inputs.
Proof.
  induction inputs as [|q inputs IH]; intros acc; simpl;
    [now rewrite app_nil_r|].
  rewrite IH. unfold contribution.
  destruct (processQuoteInput loadImage smartcrop q); simpl;
    [now rewrite <- app_assoc | reflexivity].
Qed.

Lemma generateAllQuotes_some inputs generated :
  filter isValidInput inputs <> [] ->
  generateAllQuotes loadImage smartcrop inputs generated
  = {| generatedQuotes := flat_map contribution (filter isValidInput inputs);
       alerted := false |}.
Proof.
  intros H. unfold generateAllQuotes.
  destruct (filter isValidInput inputs) as [|q l] eqn:E; [congruence|].
  cbn [List.length Nat.eqb]. now rewrite generate_fold.
Qed.

Lemma generateAllQuotes_none inputs generated :
  filter isValidInput inputs = [] ->
  generateAllQuotes loadImage smartcrop inputs generated
  = {| generatedQuotes := generated; alerted := true |}.
Proof. intros H. unfold generateAllQuotes. now rewrite H. Qed.

Lemma generateAllQuotes_alerted inputs generated :
  alerted (generateAllQuotes loadImage smartcrop inputs generated) = false ->
  generatedQuotes (generateAllQuotes loadImage smartcrop inputs generated)
  = flat_map contribution (filter isValidInput inputs).
Proof.
  destruct (filter isValidInput inputs) as [|q l] eqn:E.
  - rewrite (generateAllQuotes_none inputs generated E). discriminate.
  - rewrite (generateAllQuotes_some inputs generated) by congruence.
    now rewrite E.
Qed.

Lemma contribution_origin inputs quote :
  In quote (flat_map contribution (filter isValidInput inputs)) ->
  exists input,
    In input inputs /\ isValidInput input = true
    /\ processQuoteInput loadImage smartcrop input = Some quote.
Proof.
  intros H. apply in_flat_map in H. destruct H as (input & Hi & Hq).
  apply filter_In in Hi. destruct Hi as [Hi Hv].
  exists input. repeat split; try assumption.
  unfold contribution in Hq.
  destruct (processQuoteInput loadImage smartcrop input); simpl in Hq;
    [destruct Hq as [->|[]]; reflexivity | contradiction].
Qed.

Lemma contribution_Forall2 inputs :
  Forall2 (fun input quote => processQuoteInput loadImage smartcrop input = Some quote)
    (filter (fun q => isValidInput q
                      && match processQuoteInput loadImage smartcrop q with
                         | Some _ => true
                         | None => false
                         end) inputs)
    (flat_map contribution (filter isValidInput inputs)).
Proof.
  induction inputs as [|q inputs IH]; simpl; [constructor|].
  destruct (isValidInput q); simpl; [|assumption].
  unfold contribution at 1.
  destruct (processQuoteInput loadImage smartcrop q) eqn:E; simpl;
    [constructor; assumption | assumption].
Qed.

Lemma contribution_all_fail inputs :
  (forall q, In q inputs -> processQuoteInput loadImage smartcrop q = None) ->
  flat_map contribution inputs = [].
Proof.
  induction inputs as [|q inputs IH]; intros H; simpl; [reflexivity|].
  unfold contribution at 1. rewrite (H q (or_introl eq_refl)). simpl.
  apply IH. intros x Hx. apply H. now right.
Qed.

End Generation.

(** X11. Every quote that [generateAllQuotes] produces has a non-empty
    text. When the per-quote gradient starts of the inputs are within
    [0, 1], every generated quote renders without exception on any canvas
    that provides a 2D context. *)
Theorem generated_quotes_render :
  forall (loadImage : string -> option Canvas.Image)
         (smartcrop : Canvas.Image -> option CropData.t)
         (toUpperCase : jsstring -> jsstring)
         (textWidth : Canvas.Font -> jsstring -> Q)
         (cssColor : string -> bool)
         (settings : Settings.t)
         (quoteInputs : list QuoteInput.t) (generated : list Quote.t) (quote : Quote.t),
    alerted (generateAllQuotes loadImage smartcrop quoteInputs generated) = false ->
    In quote (generatedQuotes (generateAllQuotes loadImage smartcrop quoteInputs generated)) ->
    Quote.text quote <> []
    /\ (gradientsValid quoteInputs ->
        forall c, Canvas.has2d c = true ->
                  Canvas.completed
                    (drawQuoteOnCanvas toUpperCase textWidth cssColor settings quote c) = true).
Proof.
  intros loadImage smartcrop toUpperCase textWidth cssColor settings quoteInputs generated quote
    Ha Hin.
  rewrite (generateAllQuotes_alerted _ _ _ _ Ha) in Hin.
  destruct (contribution_origin _ _ _ _ Hin) as (input & Hi & Hv & Hp).
  destruct (processQuoteInput_fields _ _ _ _ Hp) as (_ & Ft & _ & _ & _ & Fg).
  split.
  - rewrite Ft. unfold isValidInput in Hv. apply andb_true_iff in Hv.
    now apply nonEmpty_true.
  - intros Hg c Hc.
    assert (V : validOffset (gradientStartPosition quote)).
    { unfold gradientStartPosition. rewrite Fg.
      unfold gradientsValid in Hg. rewrite Forall_forall in Hg.
      specialize (Hg input Hi).
      destruct (QuoteInput.gradientStart input); [exact Hg | split; discriminate]. }
    now rewrite (drawQuoteOnCanvas_run _ _ _ _ _ c Hc V).
Qed.

(** X12. The generated quotes are, in the order of the inputs, one per
    input that has a text and an image URL and whose image loads: each is
    the quote [processQuoteInput] resolves with for that input. *)
Theorem generation_order :
  forall (loadImage : string -> option Canvas.Image)
         (smartcrop : Canvas.Image -> option CropData.t)
         (quoteInputs : list QuoteInput.t) (generated : list Quote.t),
    alerted (generateAllQuotes loadImage smartcrop quoteInputs generated) = false ->
    Forall2
      (fun input quote =>
         processQuoteInput loadImage smartcrop input = Some quote
         /\ Quote.id quote = QuoteInput.id input)
      (filter (fun q => isValidInput q
                        && match processQuoteInput loadImage smartcrop q with
                           | Some _ => true
                           | None => false
                           end) quoteInputs)
      (generatedQuotes (generateAllQuotes loadImage smartcrop quoteInputs generated)).
Proof.
  intros loadImage smartcrop quoteInputs generated Ha.
  rewrite (generateAllQuotes_alerted _ _ _ _ Ha).
  pose proof (contribution_Forall2 loadImage smartcrop quoteInputs) as H.
  eapply Forall2_impl; [|exact H]. intros input quote Hp. split; [exact Hp|].
  now destruct (processQuoteInput_fields _ _ _ _ Hp).
Qed.

(** X13. Failures during generation. Without any input that has both a
    text and an image URL the alert is shown and the generated quotes are
    kept. With such inputs whose images all fail to load, the generated
    quotes are replaced by none, without alert. An input that is not valid
    or whose image fails changes nothing for the other inputs: as long as
    another valid input exists, the result is the same with or without
    it. *)
Theorem generation_failures :
  forall (loadImage : string -> option Canvas.Image)
         (smartcrop : Canvas.Image -> option CropData.t)
         (generated : list Quote.t),
    (forall quoteInputs,
        (forall q, In q quoteInputs -> isValidInput q = false) ->
        generateAllQuotes loadImage smartcrop quoteInputs generated
        = {| generatedQuotes := generated; alerted := true |})
    /\ (forall quoteInputs,
          (exists q, In q quoteInputs /\ isValidInput q = true) ->
          (forall q, In q quoteInputs -> isValidInput q = true ->
                     processQuoteInput loadImage smartcrop q = None) ->
          generateAllQuotes loadImage smartcrop quoteInputs generated
          = {| generatedQuotes := []; alerted := false |})
    /\ (forall before failing after,
          (isValidInput failing = false
           \/ processQuoteInput loadImage smartcrop failing = None) ->
          (exists q, In q (before ++ after) /\ isValidInput q = true) ->
          generateAllQuotes loadImage smartcrop (before ++ failing :: after) generated
          = generateAllQuotes loadImage smartcrop (before ++ after) generated).
Proof.
  intros loadImage smartcrop generated. split; [|split].
  - intros quoteInputs H. apply generateAllQuotes_none.
    destruct (filter isValidInput quoteInputs) as [|q l] eqn:E; [reflexivity|].
    assert (Hq : In q (filter isValidInput quoteInputs)) by (rewrite E; now left).
    apply filter_In in Hq. destruct Hq as [Hq Hv]. rewrite (H q Hq) in Hv. discriminate.
  - intros quoteInputs (q & Hq & Hv) Hf.
    rewrite generateAllQuotes_some.
    + f_equal. apply contribution_all_fail.
      intros x Hx. apply filter_In in Hx. destruct Hx as [Hx Hvx].
      now apply Hf.
    + intros E. assert (Hin : In q (filter isValidInput quoteInputs))
        by (apply filter_In; now split).
      rewrite E in Hin. contradiction.
  - intros before failing after Hf (q & Hq & Hv).
    assert (N1 : filter isValidInput (before ++ after) <> []).
    { intros E. assert (Hin : In q (filter isValidInput (before ++ after)))
        by (apply filter_In; now split).
      rewrite E in Hin. contradiction. }
    assert (N2 : filter isValidInput (before ++ failing :: after) <> []).
    { intros E. assert (Hin : In q (filter isValidInput (before ++ failing :: after))).
      { apply filter_In. split; [|exact Hv].
        apply in_app_iff in Hq. apply in_app_iff.
        destruct Hq; [now left | right; now right]. }
      rewrite E in Hin. contradiction. }
    rewrite (generateAllQuotes_some _ _ _ _ N1), (generateAllQuotes_some _ _ _ _ N2).
    f_equal. rewrite !filter_app, !flat_map_app. f_equal. simpl.
    destruct (isValidInput failing) eqn:Ev; [|reflexivity].
    destruct Hf as [Hf|Hf]; [discriminate|]. simpl. now rewrite Hf.
Qed.

Lemma generated_quotes_render_witness :
  Quote.text (SampleInputs.quote "a" (lit "hi") None) <> [].
Proof.
  apply (generated_quotes_render SampleInputs.loadImage SampleInputs.smartcrop
           Sample.toUpperCase (Sample.monospace 30) Sample.cssColor Sample.settings
           [SampleInputs.withImage "a" (lit "hi")] []
           (SampleInputs.quote "a" (lit "hi") None) eq_refl).
  left. reflexivity.
Defined.

Lemma generation_order_witness :
  List.length
    (generatedQuotes
       (generateAllQuotes SampleInputs.loadImage SampleInputs.smartcrop
          [SampleInputs.withImage "a" (lit "hi"); blankInput "b";
           SampleInputs.withImage "c" (lit "yo")] []))
  = 2%nat.
Proof.
  rewrite <- (Forall2_length
                (generation_order SampleInputs.loadImage SampleInputs.smartcrop
                   [SampleInputs.withImage "a" (lit "hi"); blankInput "b";
                    SampleInputs.withImage "c" (lit "yo")] [] eq_refl)).
  reflexivity.
Defined.

Lemma generation_failures_witness :
  generateAllQuotes SampleInputs.loadImage SampleInputs.smartcrop
    ([SampleInputs.withImage "a" (lit "hi")] ++ blankInput "b" :: []) []
  = generateAllQuotes SampleInputs.loadImage SampleInputs.smartcrop
      ([SampleInputs.withImage "a" (lit "hi")] ++ []) [].
Proof.
  apply (proj2 (proj2 (generation_failures SampleInputs.loadImage
                         SampleInputs.smartcrop []))).
  - left. reflexivity.
  - exists (SampleInputs.withImage "a" (lit "hi")). split; [now left | reflexivity].
Defined.

(** ** Redrawing the canvases *)

Section RedrawFacts.

Variable toUpperCase : jsstring -> jsstring.
Variable textWidth : Canvas.Font -> jsstring -> Q.
Variable cssColor : string -> bool.
Variable settings : Settings.t.
Variable complete : Canvas.Image -> bool.

Implicit Types (quote : Quote.t) (quotes : list Quote.t) (refs : Refs) (id : string).

Lemma lookupRef_storeRef_same id canvas refs :
  lookupRef id refs <> None -> lookupRef id (storeRef id canvas refs) = Some canvas.
Proof.
  induction refs as [|[key old] refs IH]; simpl; [congruence|].
  destruct (String.eqb key id) eqn:E; simpl; rewrite E; [reflexivity | exact IH].
Qed.

Lemma lookupRef_storeRef_other id id' canvas refs :
  id' <> id -> lookupRef id' (storeRef id canvas refs) = lookupRef id' refs.
Proof.
  intros Hn. induction refs as [|[key old] refs IH]; simpl; [reflexivity|].
  destruct (String.eqb key id) eqn:E; simpl.
  - apply String.eqb_eq in E. subst key.
    assert (F : String.eqb id id' = false) by (apply String.eqb_neq; congruence).
    now rewrite F.
  - destruct (String.eqb key id'); [reflexivity | exact IH].
Qed.

(** The canvas of [id] after [quote] has been drawn, from its state
    before. *)
Let drawn (quote : Quote.t) (id : string) (canvas : Canvas.t) : Canvas.t :=
  if String.eqb (Quote.id quote) id && complete (Quote.image quote)
     && Canvas.has2d canvas
  then rendered toUpperCase textWidth cssColor settings quote
  else canvas.

Lemma drawn_has2d quote id canvas :
  Canvas.has2d (drawn quote id canvas) = Canvas.has2d canvas.
Proof.
  unfold drawn. destruct (_ && _ && Canvas.has2d canvas) eqn:E; [|reflexivity].
  apply andb_true_iff in E. destruct E as [_ E]. now rewrite E.
Qed.

Lemma redraw_valid quote refs :
  validOffset (gradientStartPosition quote) ->
  exists refs',
    redraw toUpperCase textWidth cssColor settings complete quote refs = Finished refs'
    /\ forall id, lookupRef id refs' = option_map (drawn quote id) (lookupRef id refs).
Proof.
  intros Hg. unfold redraw, drawn.
  destruct (lookupRef (Quote.id quote) refs) as [canvas|] eqn:El.
  - destruct (complete (Quote.image quote)) eqn:Ec.
    + assert (D : exists canvas',
                 drawQuoteOnCanvas toUpperCase textWidth cssColor settings quote canvas
                 = Canvas.Done tt canvas'
                 /\ canvas' = if Canvas.has2d canvas
                              then rendered toUpperCase textWidth cssColor settings quote
                              else canvas).
      { destruct (Canvas.has2d canvas) eqn:Eh.
        - eexists. split; [now apply drawQuoteOnCanvas_run | reflexivity].
        - eexists. split; [now apply drawQuoteOnCanvas_no_context | reflexivity]. }
      destruct D as (canvas' & -> & Ecv). eexists. split; [reflexivity|].
      intros id. destruct (String.eqb (Quote.id quote) id) eqn:Ei.
      * apply String.eqb_eq in Ei. subst id.
        rewrite lookupRef_storeRef_same by congruence. rewrite El. simpl.
        now rewrite Ecv.
      * apply String.eqb_neq in Ei.
        rewrite lookupRef_storeRef_other by congruence.
        now destruct (lookupRef id refs).
    + eexists. split; [reflexivity|]. intros id. rewrite andb_false_r.
      now destruct (lookupRef id refs).
  - eexists. split; [reflexivity|]. intros id.
    destruct (String.eqb (Quote.id quote) id) eqn:Ei.
    + apply String.eqb_eq in Ei. subst id. now rewrite El.
    + now destruct (lookupRef id refs).
Qed.

Lemma lastDrawn_cons id quote quotes :
  lastDrawn complete id (quote :: quotes)
  = match lastDrawn complete id quotes with
    | Some q => Some q
    | None =>
        if String.eqb (Quote.id quote) id && complete (Quote.image quote)
        then Some quote else None
    end.
Proof.
  unfold lastDrawn. simpl. generalize (rev quotes). intros l.
  induction l as [|x l IH]; simpl; [reflexivity|].
  destruct (String.eqb (Quote.id x) id && complete (Quote.image x));
    [reflexivity | exact IH].
Qed.

(** What the canvas of [id] shows once all of [quotes] are drawn. *)
Let shown (quotes : list Quote.t) (id : string) (canvas : Canvas.t) : Canvas.t :=
  match lastDrawn complete id quotes with
  | Some quote =>
      if Canvas.has2d canvas then rendered toUpperCase textWidth cssColor settings quote
      else canvas
  | None => canvas
  end.

Lemma redrawEffect_valid quotes : forall refs,
  Forall (fun quote => validOffset (gradientStartPosition quote)) quotes ->
  exists refs',
    redrawEffect toUpperCase textWidth cssColor settings complete quotes refs = Finished refs'
    /\ forall id, lookupRef id refs' = option_map (shown quotes id) (lookupRef id refs).
Proof.
  induction quotes as [|quote quotes IH]; intros refs Hv.
  - exists refs. split; [reflexivity|]. intros id.
    unfold shown, lastDrawn. simpl. now destruct (lookupRef id refs).
  - inversion Hv as [|? ? Hq Hv']; subst.
    destruct (redraw_valid quote refs Hq) as (refs1 & E1 & L1).
    destruct (IH refs1 Hv') as (refs' & E' & L').
    exists refs'. cbn [redrawEffect]. rewrite E1. split; [exact E'|].
    intros id. rewrite L', L1. destruct (lookupRef id refs) as [canvas|]; [|reflexivity].
    simpl. f_equal. unfold shown. rewrite lastDrawn_cons, drawn_has2d.
    destruct (lastDrawn complete id quotes) as [q|]; unfold drawn.
    + destruct (_ && _ && Canvas.has2d canvas) eqn:E; [|reflexivity].
      apply andb_true_iff in E. destruct E as [_ E]. now rewrite E.
    + destruct (String.eqb (Quote.id quote) id && complete (Quote.image quote));
        simpl; now destruct (Canvas.has2d canvas).
Qed.

Lemma shown_shown quotes id canvas :
  shown quotes id (shown quotes id canvas) = shown quotes id canvas.
Proof.
  unfold shown. destruct (lastDrawn complete id quotes); [|reflexivity].
  destruct (Canvas.has2d canvas) eqn:E; [reflexivity | now rewrite E].
Qed.

Lemma shown_has2d quotes id canvas :
  Canvas.has2d (shown quotes id canvas) = Canvas.has2d canvas.
Proof.
  unfold shown. destruct (lastDrawn complete id quotes); [|reflexivity].
  now destruct (Canvas.has2d canvas) eqn:E.
Qed.

Lemma redrawEffect_app before quote after : forall refs refs1,
  redrawEffect toUpperCase textWidth cssColor settings complete before refs = Finished refs1 ->
  redrawEffect toUpperCase textWidth cssColor settings complete (before ++ quote :: after) refs
  = match redraw toUpperCase textWidth cssColor settings complete quote refs1 with
    | Finished refs' => redrawEffect toUpperCase textWidth cssColor settings complete after refs'
    | Aborted e refs' => Aborted e refs'
    end.
Proof.
  induction before as [|b before IH]; intros refs refs1 E.
  - simpl in E. injection E as ->. reflexivity.
  - cbn [app redrawEffect] in *.
    destruct (redraw toUpperCase textWidth cssColor settings complete b refs);
      [now apply IH | discriminate].
Qed.

End RedrawFacts.

(** X14. The redraw effect, when every generated quote has its gradient
    start within [0, 1]: the effect completes, and afterwards the canvas of
    an id shows the render of the last generated quote with that id whose
    image is complete, if there is one and the canvas provides a 2D
    context; every other canvas is as before. *)
Theorem redraw_effect_result :
  forall (toUpperCase : jsstring -> jsstring)
         (textWidth : Canvas.Font -> jsstring -> Q)
         (cssColor : string -> bool)
         (settings : Settings.t) (complete : Canvas.Image -> bool)
         (generated : list Quote.t) (refs : Refs),
    Forall (fun quote => validOffset (gradientStartPosition quote)) generated ->
    exists refs',
      redrawEffect toUpperCase textWidth cssColor settings complete generated refs = Finished refs'
      /\ forall id,
           lookupRef id refs'
           = match lookupRef id refs, lastDrawn complete id generated with
             | Some canvas, Some quote =>
                 Some (if Canvas.has2d canvas
                       then rendered toUpperCase textWidth cssColor settings quote
                       else canvas)
             | Some canvas, None => Some canvas
             | None, _ => None
             end.
Proof.
  intros toUpperCase textWidth cssColor settings complete generated refs Hv.
  destruct (redrawEffect_valid toUpperCase textWidth cssColor settings complete generated refs Hv)
    as (refs' & E & L).
  exists refs'. split; [exact E|]. intros id. rewrite L.
  destruct (lookupRef id refs) as [canvas|]; [|reflexivity]. simpl.
  now destruct (lastDrawn complete id generated).
Qed.

Lemma redraw_effect_result_witness :
  exists refs',
    redrawEffect Sample.toUpperCase (Sample.monospace 30) Sample.cssColor Sample.settings
      SampleInputs.complete
      [SampleInputs.quote "a" (lit "hi") None; SampleInputs.quote "a" (lit "yo") None]
      [("a"%string, Sample.used); ("b"%string, Sample.blank)]
    = Finished refs'
    /\ lookupRef "b" refs' = Some Sample.blank.
Proof.
  assert (V : Forall (fun quote => validOffset (gradientStartPosition quote))
                [SampleInputs.quote "a" (lit "hi") None;
                 SampleInputs.quote "a" (lit "yo") None])
    by (repeat constructor; discriminate).
  destruct (redraw_effect_result Sample.toUpperCase (Sample.monospace 30) Sample.cssColor
              Sample.settings SampleInputs.complete _
              [("a"%string, Sample.used); ("b"%string, Sample.blank)] V)
    as (refs' & E & L).
  exists refs'. split; [exact E|]. now rewrite L.
Defined.

(** X15. The redraw effect is idempotent when every generated quote has
    its gradient start within [0, 1]: run again on the canvases it left,
    it completes again and leaves every canvas as it found it. *)
Theorem redraw_effect_idempotent :
  forall (toUpperCase : jsstring -> jsstring)
         (textWidth : Canvas.Font -> jsstring -> Q)
         (cssColor : string -> bool)
         (settings : Settings.t) (complete : Canvas.Image -> bool)
         (generated : list Quote.t) (refs : Refs),
    Forall (fun quote => validOffset (gradientStartPosition quote)) generated ->
    exists refs' refs'',
      redrawEffect toUpperCase textWidth cssColor settings complete generated refs = Finished refs'
      /\ redrawEffect toUpperCase textWidth cssColor settings complete generated refs'
         = Finished refs''
      /\ forall id, lookupRef id refs'' = lookupRef id refs'.
Proof.
  intros toUpperCase textWidth cssColor settings complete generated refs Hv.
  destruct (redrawEffect_valid toUpperCase textWidth cssColor settings complete generated refs Hv)
    as (refs' & E & L).
  destruct (redrawEffect_valid toUpperCase textWidth cssColor settings complete generated refs' Hv)
    as (refs'' & E' & L').
  exists refs', refs''. split; [exact E|]. split; [exact E'|].
  intros id. rewrite L', L. destruct (lookupRef id refs) as [canvas|]; [|reflexivity].
  simpl. f_equal. apply shown_shown.
Qed.

Lemma redraw_effect_idempotent_witness :
  exists refs' refs'',
    redrawEffect Sample.toUpperCase (Sample.monospace 30) Sample.cssColor Sample.settings
      SampleInputs.complete [SampleInputs.quote "a" (lit "hi") None]
      [("a"%string, Sample.used)] = Finished refs'
    /\ redrawEffect Sample.toUpperCase (Sample.monospace 30) Sample.cssColor Sample.settings
         SampleInputs.complete [SampleInputs.quote "a" (lit "hi") None] refs'
       = Finished refs''
    /\ forall id, lookupRef id refs'' = lookupRef id refs'.
Proof.
  apply redraw_effect_idempotent. repeat constructor; discriminate.
Defined.

(** X16. A gradient start outside [0, 1] stops the redraw effect: when the
    quotes before it are drawn without exception and its own canvas
    provides a 2D context and its image is complete, the effect ends with
    an IndexSizeError at that quote, whose canvas is left with the
    background only, and the quotes after it are not drawn: every other
    canvas is as the quotes before left it. *)
Theorem redraw_effect_aborts :
  forall (toUpperCase : jsstring -> jsstring)
         (textWidth : Canvas.Font -> jsstring -> Q)
         (cssColor : string -> bool)
         (settings : Settings.t) (complete : Canvas.Image -> bool)
         (before after : list Quote.t) (quote : Quote.t) (refs : Refs) (canvas : Canvas.t),
    Forall (fun q => validOffset (gradientStartPosition q)) before ->
    ~ validOffset (gradientStartPosition quote) ->
    complete (Quote.image quote) = true ->
    lookupRef (Quote.id quote) refs = Some canvas ->
    Canvas.has2d canvas = true ->
    exists refs1 refs',
      redrawEffect toUpperCase textWidth cssColor settings complete before refs = Finished refs1
      /\ redrawEffect toUpperCase textWidth cssColor settings complete
           (before ++ quote :: after) refs
         = Aborted Canvas.IndexSizeError refs'
      /\ lookupRef (Quote.id quote) refs' = Some (interrupted quote)
      /\ forall id, id <> Quote.id quote -> lookupRef id refs' = lookupRef id refs1.
Proof.
  intros toUpperCase textWidth cssColor settings complete before after quote refs canvas
    Hv Hq Hc Hl Hh.
  destruct (redrawEffect_valid toUpperCase textWidth cssColor settings complete before refs Hv)
    as (refs1 & E & L).
  exists refs1, (storeRef (Quote.id quote) (interrupted quote) refs1).
  assert (L1 : exists canvas1,
             lookupRef (Quote.id quote) refs1 = Some canvas1
             /\ Canvas.has2d canvas1 = true).
  { rewrite L, Hl. simpl. eexists. split; [reflexivity|].
    now rewrite shown_has2d. }
  destruct L1 as (canvas1 & El1 & Eh1).
  split; [exact E|]. split; [|split].
  - rewrite (redrawEffect_app _ _ _ _ _ before quote after refs refs1 E).
    unfold redraw. rewrite El1, Hc.
    now rewrite (drawQuoteOnCanvas_throw _ _ _ _ _ canvas1 Eh1 Hq).
  - apply lookupRef_storeRef_same. congruence.
  - intros id Hn. now apply lookupRef_storeRef_other.
Qed.

Lemma redraw_effect_aborts_witness :
  exists refs',
    redrawEffect Sample.toUpperCase (Sample.monospace 30) Sample.cssColor Sample.settings
      SampleInputs.complete
      ([] ++ SampleInputs.quote "a" (lit "hi") (Some 7)
          :: [SampleInputs.quote "b" (lit "yo") None])
      [("a"%string, Sample.used); ("b"%string, Sample.blank)]
    = Aborted Canvas.IndexSizeError refs'
    /\ lookupRef "b" refs' = Some Sample.blank.
Proof.
  assert (N : ~ validOffset (gradientStartPosition
                               (SampleInputs.quote "a" (lit "hi") (Some 7)))).
  { intros [_ H]. now apply H. }
  destruct (redraw_effect_aborts Sample.toUpperCase (Sample.monospace 30) Sample.cssColor
              Sample.settings SampleInputs.complete []
              [SampleInputs.quote "b" (lit "yo") None]
              (SampleInputs.quote "a" (lit "hi") (Some 7))
              [("a"%string, Sample.used); ("b"%string, Sample.blank)] Sample.used
              (Forall_nil _) N eq_refl eq_refl eq_refl)
    as (refs1 & refs' & E1 & E & _ & L).
  exists refs'. split; [exact E|].
  rewrite (L "b"%string) by discriminate.
  injection E1 as <-. reflexivity.
Defined.

(** ** Persisted settings *)

(** X17. The settings survive a reload. After the four change handlers
    have run, the state holds the four values, and the settings that the
    effect on mount restores from the storage into the initial state are:
    the artist name; the highlight colour and the font, or their defaults
    when the saved string is empty; the font size, an integer that a
    number holds exactly or NaN, through [toString] and [parseInt]. *)
Theorem settings_round_trip :
  forall (name color font : jsstring) (size : JSNumber)
         (state : PageState.t) (storage : Storage.t),
    safeInteger size ->
    let saved :=
      handleFontSizeChange size
        (handleFontChange font
           (handleHighlightColorChange color
              (handleArtistNameChange name (state, storage)))) in
    fst saved
    = {| PageState.artistName := name; PageState.highlightColor := color;
         PageState.selectedFont := font; PageState.fontSize := size |}
    /\ loadSettings (snd saved) initialState
       = {| PageState.artistName := name;
            PageState.highlightColor := orDefault color (lit "#FF8C00");
            PageState.selectedFont := orDefault font (lit "Oswald");
            PageState.fontSize := size |}.
Proof.
  intros name color font size state storage _ saved. split; [reflexivity|].
  unfold loadSettings, saved, handleFontSizeChange, handleFontChange,
    handleHighlightColorChange, handleArtistNameChange, Storage.getItem,
    Storage.setItem. cbn [fst snd].
  change (String.eqb "artistName" "fontSize") with false.
  change (String.eqb "artistName" "selectedFont") with false.
  change (String.eqb "artistName" "highlightColor") with false.
  change (String.eqb "artistName" "artistName") with true.
  change (String.eqb "highlightColor" "fontSize") with false.
  change (String.eqb "highlightColor" "selectedFont") with false.
  change (String.eqb "highlightColor" "highlightColor") with true.
  change (String.eqb "selectedFont" "fontSize") with false.
  change (String.eqb "selectedFont" "selectedFont") with true.
  change (String.eqb "fontSize" "fontSize") with true.
  cbv iota. unfold restored, orDefault, initialState. cbn [PageState.artistName
    PageState.highlightColor PageState.selectedFont PageState.fontSize].
  f_equal.
  - now destruct name.
  - now destruct color.
  - now destruct font.
  - pose proof (numberToString_nonEmpty size) as Hn.
    destruct (numberToString size) as [|c s] eqn:E; [discriminate|].
    rewrite <- E. apply parseInt10_numberToString.
Qed.

Lemma settings_round_trip_witness :
  PageState.fontSize
    (loadSettings
       (snd (handleFontSizeChange (Num 95)
               (handleFontChange (lit "Lato")
                  (handleHighlightColorChange []
                     (handleArtistNameChange (lit "me") (initialState, Storage.clear (fun _ => None)))))))
       initialState)
  = Num 95.
Proof.
  assert (S : safeInteger (Num 95)) by (simpl; lia).
  now rewrite (proj2 (settings_round_trip (lit "me") [] (lit "Lato") (Num 95)
                        initialState (Storage.clear (fun _ => None)) S)).
Defined.

(** ** Horizontal placement *)

Section Horizontal.

Variable toUpperCase : jsstring -> jsstring.
Variable textWidth : Canvas.Font -> jsstring -> Q.
Variable cssColor : string -> bool.
Variable settings : Settings.t.

Implicit Types (quote : Quote.t) (k : Canvas.Context).
Implicit Types (line : jsstring) (lines words : list jsstring).



End Horizontal.



(** ** The font stylesheet *)

Section FontLinks.

Implicit Types (head : list Link) (id : jsstring) (l : Link).


Lemma removeFirst_fresh id head : ~ In id (linkIds head) -> removeFirst id head = head.
Proof.
  induction head as [|l head IH]; intros H; simpl; [reflexivity|].
  destruct (JS.eqb (linkId l) id) eqn:E.
  - apply eqb_eq in E. exfalso. apply H. now left.
  - f_equal. apply IH. intros Hin. apply H. now right.
Qed.






End FontLinks.


